(** * Verification of the ballsdex team-battle engine

    Shallow embedding of [ballsdex/core/battle.py]: the [Participant]
    record, [AbilityProcessor.apply_abilities] and the turn loop of
    [TeamBattle.run].

    - Python [int] is [Z] (unbounded).
    - Python [float] is IEEE-754 binary64, modelled by the standard
      library's [spec_float] with [prec = 53] and [emax = 1024]; products
      round to nearest-even and overflow to infinity exactly as in CPython.
    - A raised exception is the [Raise] branch of [result]; the mutated
      objects are lost with it, as no caller of [run] catches anything.
    - An ability value is any JSON value: [float()] and [int()] convert
      numbers and booleans, raise [TypeError] on [None], lists and dicts,
      and read a string by CPython's number grammar, whose outcome the
      string carries with it.
    - The two team lists are the store: the active participant is an index
      into its list and every mutation is written back at that index.  Each
      list cell is a [Participant] of its own, so the actor and the target
      of a hook are never the same object.
    - A transcript line is a constructor of [line], one per f-string of the
      source, carrying the values that the f-string interpolates. *)

From Stdlib Require Import ZArith Lia Floats.SpecFloat.
From stdpp Require Import base option list strings gmap.

Open Scope Z_scope.

(** ** Exceptions *)

Inductive exn :=
| ValueError (msg : string)
| OverflowError (msg : string)
| TypeError (msg : string).

Inductive result (A : Type) :=
| Ok (a : A)
| Raise (e : exn).
Arguments Ok {A} a.
Arguments Raise {A} e.

(** [result] is an error monad; stdpp's bind notation [x ← r; k] runs [k]
    on the value of [r] and propagates its exception. *)
#[export] Instance result_ret : MRet result := fun _ a => Ok a.
#[export] Instance result_bind : MBind result := fun _ _ k r =>
  match r with
  | Ok a => k a
  | Raise e => Raise e
  end.

(** ** Python floats *)

Module PyFloat.

Definition prec : Z := 53.
Definition emax : Z := 1024.

Definition float : Type := spec_float.

(** [0.0], [1.0] and [100.0]. *)
Definition zero : float := S754_zero false.
Definition one : float := S754_finite false 4503599627370496 (-52).
Definition hundred : float := S754_finite false 7036874417766400 (-46).

(** [float(z)] for an [int]: correctly rounded, [OverflowError] when the
    rounded value is not finite. *)
Definition of_int (z : Z) : result float :=
  match binary_normalize prec emax z 0 false with
  | S754_infinity _ => Raise (OverflowError "int too large to convert to float")
  | f => Ok f
  end.

(** [x * y] on two floats. *)
Definition mul (x y : float) : float := SFmul prec emax x y.

(** [z * y] for an [int] [z] and a [float] [y]: the int is converted
    first. *)
Definition int_mul (z : Z) (y : float) : result float :=
  x ← of_int z; Ok (mul x y).

(** [int(f)]: truncation toward zero. *)
Definition to_int (f : float) : result Z :=
  match f with
  | S754_zero _ => Ok 0
  | S754_infinity _ => Raise (OverflowError "cannot convert float infinity to integer")
  | S754_nan => Raise (ValueError "cannot convert float NaN to integer")
  | S754_finite s m e =>
      Ok (cond_Zopp s (match e with
                       | Zneg k => Z.shiftr (Zpos m) (Zpos k)
                       | _ => Z.shiftl (Zpos m) e
                       end))
  end.

(** Truth value of a float in [if f:]. *)
Definition truthy (f : float) : bool :=
  match f with
  | S754_zero _ => false
  | _ => true
  end.

(** [a < b]. *)
Definition ltb (a b : float) : bool := SFltb a b.

(** The builtin [max(a, b)]: [b] when [b > a], else [a]. *)
Definition max (a b : float) : float := if ltb a b then b else a.

(** [math.floor(f)], used only to write down formulas that speak of
    floor; the program itself calls [int]. *)
Definition floor (f : float) : result Z :=
  match f with
  | S754_zero _ => Ok 0
  | S754_infinity _ => Raise (OverflowError "cannot convert float infinity to integer")
  | S754_nan => Raise (ValueError "cannot convert float NaN to integer")
  | S754_finite s m e =>
      Ok (match e with
          | Zneg k => Z.div (cond_Zopp s (Zpos m)) (Z.pow 2 (Zpos k))
          | _ => cond_Zopp s (Z.shiftl (Zpos m) e)
          end)
  end.

(** Some literals: [0.3], [0.5], [0.8], [2.0], [-0.5] and
    [8.98846567431158e+307] (which is [2.0 ** 1023]). *)
Definition f0_3 : float := S754_finite false 5404319552844595 (-54).
Definition f0_5 : float := S754_finite false 4503599627370496 (-53).
Definition f0_8 : float := S754_finite false 7205759403792794 (-53).
Definition f2 : float := S754_finite false 4503599627370496 (-51).
Definition fm0_5 : float := S754_finite true 4503599627370496 (-53).
Definition f2p1023 : float := S754_finite false 4503599627370496 971.

End PyFloat.

(** ** Data model *)

(** A JSON document as Python holds it: [None], [bool], [int], [float],
    [str], [list] and [dict]; a dict is its items in insertion order. *)
#[warnings="-register-all"]
Inductive json :=
| JNull
| JBool (b : bool)
| JInt (z : Z)
| JFloat (f : PyFloat.float)
| JStr (s : string)
| JList (l : list json)
| JDict (d : list (string * json)).

(** What is stored under ["value"] of an ability entry: any JSON value, as
    nothing looks at it before the engine converts it.  Of a string the
    engine uses [float(s)] and [int(s)] only; CPython's number grammar
    (blanks around the number, sign, underscores, exponent, [inf] and
    [nan], non-ASCII digits, the digit limit of [int]) is not modelled, so
    a string carries, beside its text, what each of the two calls makes of
    it: [inl] the number, [inr msg] the [ValueError(msg)]. *)
Inductive value :=
| VInt (z : Z)
| VFloat (f : PyFloat.float)
| VBool (b : bool)
| VNone
| VStr (s : string) (as_float : PyFloat.float + string) (as_int : Z + string)
| VList (l : list json)
| VDict (d : list (string * json)).

(** The [TypeError] of [float(x)] and of [int(x)] on an [x] of type [ty]
    that is neither a number nor a string. *)
Definition float_type_error (ty : string) : exn :=
  TypeError ("float() argument must be a string or a real number, not '"
             +:+ ty +:+ "'").

Definition int_type_error (ty : string) : exn :=
  TypeError ("int() argument must be a string, a bytes-like object or a real number, not '"
             +:+ ty +:+ "'").

(** [float(v)] and [int(v)]; a [bool] is an [int]. *)
Definition py_float (v : value) : result PyFloat.float :=
  match v with
  | VInt z => PyFloat.of_int z
  | VFloat f => Ok f
  | VBool b => Ok (if b then PyFloat.one else PyFloat.zero)
  | VNone => Raise (float_type_error "NoneType")
  | VStr _ (inl f) _ => Ok f
  | VStr _ (inr msg) _ => Raise (ValueError msg)
  | VList _ => Raise (float_type_error "list")
  | VDict _ => Raise (float_type_error "dict")
  end.

Definition py_int (v : value) : result Z :=
  match v with
  | VInt z => Ok z
  | VFloat f => PyFloat.to_int f
  | VBool b => Ok (if b then 1 else 0)
  | VNone => Raise (int_type_error "NoneType")
  | VStr _ _ (inl z) => Ok z
  | VStr _ _ (inr msg) => Raise (ValueError msg)
  | VList _ => Raise (int_type_error "list")
  | VDict _ => Raise (int_type_error "dict")
  end.

(** An ability entry: a dict read through [entry.get("type")] and
    [entry.get("value", default)]; [None] is an absent key, the type is a
    string and the value any JSON value. *)
Record entry := {
  e_type : option string;
  e_value : option value
}.

(** [Ball.capacity_logic]: [None] or a dict from hook name to entries. *)
Record Ball := {
  capacity_logic : option (gmap string (list entry))
}.

(** What the engine reads of a [BallInstance]. *)
Record BallInstance := {
  short_description : string;
  health : Z;
  attack : Z;
  countryball : Ball
}.

Record Participant := {
  instance : BallInstance;
  max_hp : Z;
  current_hp : Z;
  shield_percent : PyFloat.float;
  extra_damage_multiplier : PyFloat.float;
  extra_flat_damage : Z
}.

Definition set_current_hp (p : Participant) (hp : Z) : Participant :=
  {| instance := instance p; max_hp := max_hp p; current_hp := hp;
     shield_percent := shield_percent p;
     extra_damage_multiplier := extra_damage_multiplier p;
     extra_flat_damage := extra_flat_damage p |}.

Definition set_shield_percent (p : Participant) (s : PyFloat.float) : Participant :=
  {| instance := instance p; max_hp := max_hp p; current_hp := current_hp p;
     shield_percent := s;
     extra_damage_multiplier := extra_damage_multiplier p;
     extra_flat_damage := extra_flat_damage p |}.

Definition set_extra_damage_multiplier (p : Participant) (m : PyFloat.float) : Participant :=
  {| instance := instance p; max_hp := max_hp p; current_hp := current_hp p;
     shield_percent := shield_percent p;
     extra_damage_multiplier := m;
     extra_flat_damage := extra_flat_damage p |}.

Definition set_extra_flat_damage (p : Participant) (d : Z) : Participant :=
  {| instance := instance p; max_hp := max_hp p; current_hp := current_hp p;
     shield_percent := shield_percent p;
     extra_damage_multiplier := extra_damage_multiplier p;
     extra_flat_damage := d |}.

Definition desc (p : Participant) : string := short_description (instance p).

(** Transcript lines, one constructor per format string of the source. *)
Inductive line :=
| LUses (who : string) (mult : PyFloat.float)
    (* "{who} uses damage x{mult}." *)
| LGains (who : string) (amt : Z)
    (* "{who} gains +{amt} extra damage this attack." *)
| LHeals (who : string) (heal : Z)
    (* "{who} heals {heal} HP." *)
| LGrants (who : string) (pct100 : Z) (whom : string)
    (* "{who} grants a {pct100}% shield to {whom}." *)
| LUnknown (t : option string)
    (* "Unknown ability type: {t}" *)
| LTurn (turn : Z) (a b : string)
    (* "-- Turn {turn}: {a} vs {b} --" *)
| LAbsorbs (who : string) (reduction : Z)
    (* "{who} absorbs {reduction} damage with shield." *)
| LDeals (who : string) (dmg : Z) (whom : string) (hp : Z)
    (* "{who} deals {dmg} damage. {whom} HP is now {hp}." *)
| LDefeated (who : string)
    (* "{who} has been defeated." *)
| LTurnLimit
    (* "Turn limit reached, ending in a draw." *)
| LTeamAWins
    (* "Team A wins!" *)
| LTeamBWins
    (* "Team B wins!" *)
| LDraw.
    (* "Battle ended in a draw." *)

(** ** AbilityProcessor *)

(** One iteration of the [for entry in logic.get(when, [])] loop. *)
Definition apply_entry (actor : Participant) (target : option Participant) (e : entry)
  : result (Participant * option Participant * list line) :=
  let t := e_type e in
  if decide (t = Some "damage_multiplier"%string) then
    mult ← py_float (default (VFloat PyFloat.one) (e_value e));
    Ok (set_extra_damage_multiplier actor
          (PyFloat.mul (extra_damage_multiplier actor) mult),
        target,
        [LUses (desc actor) mult])
  else if decide (t = Some "extra_damage"%string) then
    amt ← py_int (default (VInt 0) (e_value e));
    Ok (set_extra_flat_damage actor (extra_flat_damage actor + amt),
        target,
        [LGains (desc actor) amt])
  else if decide (t = Some "heal"%string) then
    pct ← py_float (default (VFloat PyFloat.zero) (e_value e));
    x ← PyFloat.int_mul (max_hp actor) pct;
    n ← PyFloat.to_int x;
    let heal := Z.max 1 n in
    Ok (set_current_hp actor (Z.min (current_hp actor + heal) (max_hp actor)),
        target,
        [LHeals (desc actor) heal])
  else if decide (t = Some "shield"%string) then
    pct ← py_float (default (VFloat PyFloat.zero) (e_value e));
    match target with
    | Some tg =>
        let tg' := set_shield_percent tg (PyFloat.max (shield_percent tg) pct) in
        pct100 ← PyFloat.to_int (PyFloat.mul pct PyFloat.hundred);
        Ok (actor, Some tg', [LGrants (desc actor) pct100 (desc tg')])
    | None => Ok (actor, None, [])
    end
  else
    Ok (actor, target, [LUnknown t]).

Fixpoint apply_entries (actor : Participant) (target : option Participant)
    (es : list entry) : result (Participant * option Participant * list line) :=
  match es with
  | [] => Ok (actor, target, [])
  | e :: es' =>
      '(actor1, target1, l1) ← apply_entry actor target e;
      '(actor2, target2, l2) ← apply_entries actor1 target1 es';
      Ok (actor2, target2, l1 ++ l2)
  end.

(** [actor.instance.countryball.capacity_logic or {}]. *)
Definition logic_of (p : Participant) : gmap string (list entry) :=
  default ∅ (capacity_logic (countryball (instance p))).

(** [AbilityProcessor.apply_abilities(when, actor, target)]: the mutated
    actor, the mutated target and the returned log lines. *)
Definition apply_abilities (when : string) (actor : Participant)
    (target : option Participant)
  : result (Participant * option Participant * list line) :=
  apply_entries actor target (default [] (logic_of actor !! when)).

(** ** TeamBattle *)

Record TeamBattle := {
  team_a : list Participant;
  team_b : list Participant
}.

Definition make_participant (inst : BallInstance) : Participant :=
  {| instance := inst; max_hp := health inst; current_hp := health inst;
     shield_percent := PyFloat.zero;
     extra_damage_multiplier := PyFloat.one;
     extra_flat_damage := 0 |}.

Definition make_participants (team : list BallInstance) : list Participant :=
  make_participant <$> take 3 team.

(** [TeamBattle.__init__]. *)
Definition TeamBattle_init (ta tb : list BallInstance) : result TeamBattle :=
  match ta, tb with
  | _ :: _, _ :: _ =>
      Ok {| team_a := make_participants ta; team_b := make_participants tb |}
  | _, _ => Raise (ValueError "Both teams must have at least one BallInstance")
  end.

(** [TeamBattle._active]: the first participant with positive HP, with its
    position in the list (the returned object is that list cell). *)
Definition active (team : list Participant) : option (nat * Participant) :=
  list_find (fun p => 0 < current_hp p) team.

(** The attack value before the shield (line 102 and line 131):
    [int(attack * extra_damage_multiplier) + extra_flat_damage]. *)
Definition base_damage (att : Participant) : result Z :=
  x ← PyFloat.int_mul (attack (instance att)) (extra_damage_multiplier att);
  n ← PyFloat.to_int x;
  Ok (n + extra_flat_damage att).

(** The shield block (lines 105-108 and 134-137): the damage left after
    the reduction, and the line logged. *)
Definition shield_block (dmg : Z) (def : Participant) : result (Z * list line) :=
  if PyFloat.truthy (shield_percent def) then
    x ← PyFloat.int_mul dmg (shield_percent def);
    reduction ← PyFloat.to_int x;
    Ok (dmg - reduction, [LAbsorbs (desc def) reduction])
  else Ok (dmg, []).

(** The reset of lines 114-115 and 143-144. *)
Definition reset_attack (att : Participant) : Participant :=
  set_extra_flat_damage (set_extra_damage_multiplier att PyFloat.one) 0.

(** Lines 110-115 (and 139-144): clamp the damage, hit the defender, log,
    reset the attacker. *)
Definition resolve_attack (dmg : Z) (att def : Participant)
  : Participant * Participant * list line :=
  let dmg := Z.max 1 dmg in
  let def' := set_current_hp def (current_hp def - dmg) in
  (reset_attack att, def',
   [LDeals (desc att) dmg (desc def') (Z.max (current_hp def') 0)]).

(** One exchange, lines 101-115 with [att] attacking [def] (lines 130-144
    are the same text with the two teams swapped). *)
Definition exchange (att def : Participant)
  : result (Participant * Participant * list line) :=
  '(att1, odef1, l1) ← apply_abilities "on_attack" att (Some def);
  let def1 := default def odef1 in
  dmg ← base_damage att1;
  '(def2, oatt2, l2) ← apply_abilities "on_defend" def1 (Some att1);
  let att2 := default att1 oatt2 in
  '(dmg', l3) ← shield_block dmg def2;
  let '(att3, def3, l4) := resolve_attack dmg' att2 def2 in
  Ok (att3, def3, l1 ++ l2 ++ l3 ++ l4).

(** The defeat block, lines 117-122 (and 146-151): [def] sits at index [j]
    of [def_team], [att] at index [i] of [att_team]. *)
Definition defeat_block (i j : nat) (att def : Participant)
    (att_team def_team : list Participant)
  : result (list Participant * list Participant * list line) :=
  if decide (current_hp def <= 0) then
    '(def1, oatt1, l1) ← apply_abilities "on_exit" def (Some att);
    let att1 := default att oatt1 in
    let def_team1 := <[j := def1]> def_team in
    match active def_team1 with
    | Some (k, nxt) =>
        '(nxt1, oatt2, l2) ← apply_abilities "on_enter" nxt (Some att1);
        Ok (<[i := default att1 oatt2]> att_team, <[k := nxt1]> def_team1,
            [LDefeated (desc def)] ++ l1 ++ l2)
    | None =>
        Ok (<[i := att1]> att_team, def_team1, [LDefeated (desc def)] ++ l1)
    end
  else Ok (<[i := att]> att_team, <[j := def]> def_team, []).

(** One side attacks: lines 101-122 for team A, 130-151 for team B. *)
Definition attack_phase (i j : nat) (att def : Participant)
    (att_team def_team : list Participant)
  : result (list Participant * list Participant * list line) :=
  '(att1, def1, l1) ← exchange att def;
  '(att_team1, def_team1, l2) ← defeat_block i j att1 def1 att_team def_team;
  Ok (att_team1, def_team1, l1 ++ l2).

(** How one pass through the body of [while True] ends, before the turn
    counter is touched: by one of the two [break]s of lines 96 and 128, or
    by reaching line 153. *)
Inductive pass :=
| Broke (b : TeamBattle) (logs : list line)
| Completed (b : TeamBattle) (logs : list line).

(** Lines 93-151; the lines returned are those appended in this pass. *)
Definition turn_body (turn : Z) (b : TeamBattle) : result pass :=
  match active (team_a b), active (team_b b) with
  | Some (i, a), Some (j, d) =>
      let l0 := [LTurn turn (desc a) (desc d)] in
      '(ta1, tb1, l1) ← attack_phase i j a d (team_a b) (team_b b);
      match active ta1, active tb1 with
      | Some (i', a'), Some (j', d') =>
          '(tb2, ta2, l2) ← attack_phase j' i' d' a' tb1 ta1;
          Ok (Completed {| team_a := ta2; team_b := tb2 |} (l0 ++ l1 ++ l2))
      | _, _ => Ok (Broke {| team_a := ta1; team_b := tb1 |} (l0 ++ l1))
      end
  | _, _ => Ok (Broke b [])
  end.

(** The [while True] loop with its turn counter (lines 92-156).  [fuel]
    bounds the recursion; [None] means the fuel ran out, which [run] never
    meets because line 154 leaves the loop after turn 1000. *)
Fixpoint loop (fuel : nat) (turn : Z) (b : TeamBattle) (logs : list line)
  : option (result (TeamBattle * list line)) :=
  match fuel with
  | O => None
  | S fuel' =>
      match turn_body turn b with
      | Raise e => Some (Raise e)
      | Ok (Broke b' l) => Some (Ok (b', logs ++ l))
      | Ok (Completed b' l) =>
          let turn' := turn + 1 in
          if decide (turn' > 1000)
          then Some (Ok (b', logs ++ l ++ [LTurnLimit]))
          else loop fuel' turn' b' (logs ++ l)
      end
  end.

(** Lines 85-90: [on_enter] of the two starting participants; the four
    cases are the outcomes of the two [if]s. *)
Definition enter_phase (b : TeamBattle) : result (TeamBattle * list line) :=
  match active (team_a b), active (team_b b) with
  | Some (i, a), Some (j, d) =>
      '(a1, od1, l1) ← apply_abilities "on_enter" a (Some d);
      let d1 := default d od1 in
      '(d2, oa2, l2) ← apply_abilities "on_enter" d1 (Some a1);
      Ok ({| team_a := <[i := default a1 oa2]> (team_a b);
             team_b := <[j := d2]> (team_b b) |}, l1 ++ l2)
  | Some (i, a), None =>
      '(a1, _, l1) ← apply_abilities "on_enter" a None;
      Ok ({| team_a := <[i := a1]> (team_a b); team_b := team_b b |}, l1)
  | None, Some (j, d) =>
      '(d1, _, l2) ← apply_abilities "on_enter" d None;
      Ok ({| team_a := team_a b; team_b := <[j := d1]> (team_b b) |}, l2)
  | None, None => Ok (b, [])
  end.

(** [any(p.current_hp > 0 for p in team)]. *)
Definition any_alive (team : list Participant) : bool :=
  existsb (fun p => 0 <? current_hp p) team.

(** Lines 158-165: the line appended after the loop. *)
Definition verdict (b : TeamBattle) : line :=
  let a_alive := any_alive (team_a b) in
  let b_alive := any_alive (team_b b) in
  if a_alive && negb b_alive then LTeamAWins
  else if b_alive && negb a_alive then LTeamBWins
  else LDraw.

(** [TeamBattle.run]: the battle as [run] leaves it and the transcript it
    returns. *)
Definition run (b : TeamBattle) : option (result (TeamBattle * list line)) :=
  match enter_phase b with
  | Raise e => Some (Raise e)
  | Ok (b1, l1) =>
      match loop 1000 1 b1 l1 with
      | Some (Ok (b2, l2)) => Some (Ok (b2, l2 ++ [verdict b2]))
      | r => r
      end
  end.

(** Construction followed by [run], as every caller does. *)
Definition battle (ta tb : list BallInstance)
  : option (result (TeamBattle * list line)) :=
  match TeamBattle_init ta tb with
  | Ok b => run b
  | Raise e => Some (Raise e)
  end.

(** ** The entities of the repository's tests *)

Definition mock (pk : string) (hp atk : Z) (logic : list (string * list entry))
  : BallInstance :=
  {| short_description := pk; health := hp; attack := atk;
     countryball := {| capacity_logic := Some (list_to_map logic) |} |}.

Definition ability (t : string) (v : value) : entry :=
  {| e_type := Some t; e_value := Some v |}.

(** ** Formulas and predicates used in the statements *)

(** The damage of one exchange as a formula over the attacker's attack,
    multiplier and flat bonus and the defender's shield, parametric in the
    rounding of a float product and in the test that applies the shield. *)
Definition damage_formula (round : PyFloat.float -> result Z)
    (applies : PyFloat.float -> bool)
    (atk : Z) (mult : PyFloat.float) (flat : Z) (shield : PyFloat.float)
  : result Z :=
  x ← PyFloat.int_mul atk mult;
  n ← round x;
  let pre := n + flat in
  reduction ← (if applies shield
               then y ← PyFloat.int_mul pre shield; round y
               else Ok 0);
  Ok (Z.max 1 (pre - reduction)).

(** The formula in the specification's words: floor, and a shield applied
    only when [shield_percent > 0]. *)
Definition spec_damage : Z -> PyFloat.float -> Z -> PyFloat.float -> result Z :=
  damage_formula PyFloat.floor (PyFloat.ltb PyFloat.zero).

(** The same formula with the conversions of the program: [int] and the
    truth value of [shield_percent]. *)
Definition int_damage : Z -> PyFloat.float -> Z -> PyFloat.float -> result Z :=
  damage_formula PyFloat.to_int PyFloat.truthy.

(** The entry [{"type": "shield", "value": pct}]. *)
Definition shield_entry (pct : PyFloat.float) : entry :=
  ability "shield" (VFloat pct).

(** C7 as stated: on every participant, granting 0.3 and then 0.5 leaves
    a [shield_percent] of 0.5. *)
Definition grants_yield_half : Prop :=
  forall actor tg a' tg' l,
    apply_entries actor (Some tg)
      [shield_entry PyFloat.f0_3; shield_entry PyFloat.f0_5]
    = Ok (a', Some tg', l) ->
    shield_percent tg' = PyFloat.f0_5.

Definition hp_bounded (p : Participant) : Prop :=
  current_hp p <= max_hp p.

(** Total of the positive HP of a team. *)
Definition team_hp (team : list Participant) : Z :=
  foldr (fun p acc => Z.max 0 (current_hp p) + acc) 0 team.

(** Total of the positive health of the entities that enter the battle. *)
Definition team_health (team : list BallInstance) : Z :=
  foldr (fun i acc => Z.max 0 (health i) + acc) 0 (take 3 team).

(** The entries of a hook of an entity. *)
Definition hook_entries (inst : BallInstance) (when : string) : list entry :=
  default [] (default ∅ (capacity_logic (countryball inst)) !! when).

Definition no_heal (inst : BallInstance) : Prop :=
  forall when, Forall (fun e => e_type e <> Some "heal"%string) (hook_entries inst when).

Definition no_shield (inst : BallInstance) (when : string) : Prop :=
  Forall (fun e => e_type e <> Some "shield"%string) (hook_entries inst when).

(** The exceptions of the float conversions. *)
Definition conversion_error (e : exn) : Prop :=
  e = OverflowError "int too large to convert to float"
  \/ e = OverflowError "cannot convert float infinity to integer"
  \/ e = ValueError "cannot convert float NaN to integer".

(** The values that are numbers to Python: [int], [float] and [bool]. *)
Definition numeric (v : value) : Prop :=
  match v with
  | VInt _ | VFloat _ | VBool _ => True
  | _ => False
  end.

(** The exceptions of [float(v)] and [int(v)] on a value that is not a
    number: the [TypeError] on [None], a list or a dict, and the
    [ValueError] on a string that does not read as a number. *)
Definition value_error (e : exn) : Prop :=
  exists v, ~ numeric v /\ (py_float v = Raise e \/ py_int v = Raise e).

(** A team whose participants are of entities that [Q] admits. *)
Definition team_admits (Q : BallInstance -> Prop) (team : list Participant)
  : Prop :=
  Forall (fun p => Q (instance p)) team.

(** An entity all of whose ability values are numbers. *)
Definition numeric_entity (inst : BallInstance) : Prop :=
  forall when,
    Forall (fun e => forall v, e_value e = Some v -> numeric v)
      (hook_entries inst when).

Definition is_verdict (l : line) : Prop :=
  l = LTeamAWins \/ l = LTeamBWins \/ l = LDraw.

(** The turn numbers of the headers of a transcript, in order. *)
Definition turn_numbers (logs : list line) : list Z :=
  omap (fun l => match l with LTurn t _ _ => Some t | _ => None end) logs.

(** The lines that an ability entry can log. *)
Definition ability_line (l : line) : Prop :=
  match l with
  | LUses _ _ | LGains _ _ | LHeals _ _ | LGrants _ _ _ | LUnknown _ => True
  | _ => False
  end.

(** The lines logged inside the loop body: everything but the turn-limit
    line and the three verdicts. *)
Definition body_line (l : line) : Prop :=
  match l with
  | LTurnLimit | LTeamAWins | LTeamBWins | LDraw => False
  | _ => True
  end.

(** What a hook pass may change of the target: the shield only. *)
Definition target_frame (t t' : option Participant) : Prop :=
  match t, t' with
  | Some tg, Some tg' => tg' = set_shield_percent tg (shield_percent tg')
  | None, None => True
  | _, _ => False
  end.

(** What a hook pass may change of the actor and of the target. *)
Definition hook_frame (x y : Participant * option Participant) : Prop :=
  instance y.1 = instance x.1 /\ max_hp y.1 = max_hp x.1
  /\ shield_percent y.1 = shield_percent x.1
  /\ target_frame x.2 y.2.

(** A hook pass never lowers the HP of an actor within its bound, and
    keeps it within the bound. *)
Definition hook_heals (x y : Participant * option Participant) : Prop :=
  hp_bounded x.1 -> current_hp x.1 <= current_hp y.1 /\ hp_bounded y.1.

Definition hook_keeps_hp (x y : Participant * option Participant) : Prop :=
  current_hp y.1 = current_hp x.1.

Definition hook_keeps_target (x y : Participant * option Participant) : Prop :=
  y.2 = x.2.

(** The entities of the examples. *)
Definition plain_a : BallInstance := mock "#1 A" 20 5 [].
Definition plain_b : BallInstance := mock "#2 B" 10 1 [].

(** [test_ability_extra_damage_and_shield]. *)
Definition striker : BallInstance :=
  mock "#10 Mock" 20 5 [("on_attack"%string, [ability "extra_damage" (VInt 3)])].
Definition shielder : BallInstance :=
  mock "#20 Mock" 30 4 [("on_defend"%string, [shield_entry PyFloat.f0_5])].

(** [test_heal_and_multiplier]. *)
Definition healer : BallInstance :=
  mock "#50 Mock" 10 4
    [("on_attack"%string, [ability "damage_multiplier" (VFloat PyFloat.f2)]);
     ("on_enter"%string, [ability "heal" (VFloat PyFloat.f0_5)])].
Definition dummy : BallInstance := mock "#60 Mock" 30 2 [].

(** An attacker whose multiplier is negative:
    [{"on_attack": [{"type": "damage_multiplier", "value": -0.5},
                    {"type": "extra_damage", "value": 4}]}]. *)
Definition backhander : BallInstance :=
  mock "#70 Mock" 20 5
    [("on_attack"%string, [ability "damage_multiplier" (VFloat PyFloat.fm0_5);
                           ability "extra_damage" (VInt 4)])].

(** An entity whose heal overflows:
    [{"on_enter": [{"type": "heal", "value": 8.98846567431158e+307}]}]. *)
Definition overhealer : BallInstance :=
  mock "#80 Mock" 20 5
    [("on_enter"%string, [ability "heal" (VFloat PyFloat.f2p1023)])].

(** A participant that holds a shield of 0.8 from an earlier grant. *)
Definition shielded_striker : Participant :=
  set_shield_percent (make_participant striker) PyFloat.f0_8.

(** Two long-lived entities without abilities. *)
Definition wall_1000 : BallInstance := mock "#91 Wall" 1000 1 [].
Definition wall_2000 : BallInstance := mock "#92 Wall" 2000 1 [].

(** The damage that an exchange applies follows [formula], evaluated on
    the attacker as [on_attack] left it and on the defender as [on_defend]
    left it. *)
Definition exchange_damage_is
    (formula : Z -> PyFloat.float -> Z -> PyFloat.float -> result Z) : Prop :=
  forall att def att' def' l att1 def1 l1 def2 att2 l2,
    apply_abilities "on_attack" att (Some def) = Ok (att1, Some def1, l1) ->
    apply_abilities "on_defend" def1 (Some att1) = Ok (def2, Some att2, l2) ->
    exchange att def = Ok (att', def', l) ->
    exists d,
      formula (attack (instance att1)) (extra_damage_multiplier att1)
        (extra_flat_damage att1) (shield_percent def2) = Ok d
      /\ 1 <= d /\ current_hp def' = current_hp def2 - d.

(** A heal entry raises the HP of its actor by at least 1. *)
Definition heal_raises_hp : Prop :=
  forall actor target e a' t' l,
    e_type e = Some "heal"%string ->
    apply_entry actor target e = Ok (a', t', l) ->
    current_hp actor + 1 <= current_hp a'.

(** A shield granted by the defender's [on_defend] reduces the hit of the
    same exchange. *)
Definition on_defend_shield_reduces_hit : Prop :=
  forall att def att' def' l pct att1 def1 l1,
    hook_entries (instance def) "on_defend" = [shield_entry pct] ->
    apply_abilities "on_attack" att (Some def) = Ok (att1, Some def1, l1) ->
    exchange att def = Ok (att', def', l) ->
    exists d,
      int_damage (attack (instance att1)) (extra_damage_multiplier att1)
        (extra_flat_damage att1) (PyFloat.max (shield_percent def1) pct) = Ok d
      /\ current_hp def' = current_hp def1 - d.

(** The lines logged by the hooks and by an exchange: no turn header, no
    turn-limit line, no verdict. *)
Definition phase_line (l : line) : Prop :=
  match l with
  | LTurn _ _ _ | LTurnLimit | LTeamAWins | LTeamBWins | LDraw => False
  | _ => True
  end.

(** The invariant of a participant: HP within [max_hp], and [max_hp] the
    health of its entity. *)
Definition hp_ok (p : Participant) : Prop :=
  current_hp p <= max_hp p /\ max_hp p = health (instance p).

(** How a participant changes in the course of a battle: its entity and
    [max_hp] stay, a bounded HP stays bounded, and without heal entries the
    HP does not rise. *)
Definition evolves (p p' : Participant) : Prop :=
  instance p' = instance p /\ max_hp p' = max_hp p
  /\ (hp_bounded p -> hp_bounded p')
  /\ (no_heal (instance p) -> current_hp p' <= current_hp p).

Definition team_no_heal (team : list Participant) : Prop :=
  Forall (fun p => no_heal (instance p)) team.

(** The battle and the lines of a pass. *)
Definition pass_battle (r : pass) : TeamBattle :=
  match r with
  | Broke b _ | Completed b _ => b
  end.

Definition pass_lines (r : pass) : list line :=
  match r with
  | Broke _ l | Completed _ l => l
  end.

(** Both teams evolve from [b] to [b']. *)
Definition battle_evolves (b b' : TeamBattle) : Prop :=
  Forall2 evolves (team_a b) (team_a b')
  /\ Forall2 evolves (team_b b) (team_b b').

Definition battle_no_heal (b : TeamBattle) : Prop :=
  team_no_heal (team_a b) /\ team_no_heal (team_b b).

Definition battle_hp_ok (b : TeamBattle) : Prop :=
  Forall hp_ok (team_a b) /\ Forall hp_ok (team_b b).

Definition is_turn_limit (l : line) : bool :=
  match l with
  | LTurnLimit => true
  | _ => false
  end.

(** The last [n] lines of a transcript. *)
Definition ending (n : nat) (logs : list line) : list line :=
  drop (length logs - n) logs.

(** C1 as stated: every battle between two non-empty teams returns a
    non-empty transcript that ends with a verdict or with the turn-limit
    line. *)
Definition run_always_returns : Prop :=
  forall ta tb, ta <> [] -> tb <> [] ->
    exists b logs l,
      battle ta tb = Some (Ok (b, logs))
      /\ last logs = Some l /\ (is_verdict l \/ l = LTurnLimit).

(** C6 as stated: between non-empty teams of entities with positive
    health, no transcript holds the turn-limit line. *)
Definition cap_never_reached : Prop :=
  forall ta tb b logs, ta <> [] -> tb <> [] ->
    Forall (fun i => 0 < health i) ta -> Forall (fun i => 0 < health i) tb ->
    battle ta tb = Some (Ok (b, logs)) -> LTurnLimit ∉ logs.

(** An entity without any ability entry whose attack converts:
    [int(attack * 1.0)] is defined. *)
Definition plain (inst : BallInstance) : Prop :=
  (forall when, hook_entries inst when = [])
  /\ exists n, base_damage (make_participant inst) = Ok n.

(** A participant of a plain entity, with the modifiers of its
    construction. *)
Definition pristine (p : Participant) : Prop :=
  plain (instance p) /\ shield_percent p = PyFloat.zero
  /\ extra_damage_multiplier p = PyFloat.one /\ extra_flat_damage p = 0.

Definition battle_pristine (b : TeamBattle) : Prop :=
  Forall pristine (team_a b) /\ Forall pristine (team_b b).

(** The transcript of a battle that returned. *)
Definition transcript (r : option (result (TeamBattle * list line)))
  : option (list line) :=
  match r with
  | Some (Ok (_, logs)) => Some logs
  | _ => None
  end.

(** The ability types that [apply_abilities] supports (its docstring). *)
Definition supported_types : list string :=
  ["damage_multiplier"; "extra_damage"; "heal"; "shield"]%string.

(** The ability types whose value goes through [float()]; the value of
    an [extra_damage] entry goes through [int()]. *)
Definition float_types : list string :=
  ["damage_multiplier"; "heal"; "shield"]%string.

(** An entry of a supported type whose value is there and on which the
    conversion of that type raises [x]. *)
Definition conversion_fails (e : entry) (x : exn) : Prop :=
  exists t v,
    e_type e = Some t /\ e_value e = Some v
    /\ ((t ∈ float_types /\ py_float v = Raise x)
        \/ (t = "extra_damage"%string /\ py_int v = Raise x)).

(** An entity whose heal holds no number:
    [{"on_enter": [{"type": "heal", "value": null}]}]. *)
Definition null_healer : BallInstance :=
  mock "#81 Mock" 20 5 [("on_enter"%string, [ability "heal" VNone])].

(** Whether one of the entities that enter the battle has positive
    health. *)
Definition team_alive (team : list BallInstance) : bool :=
  existsb (fun i => 0 <? health i) (take 3 team).

(** A participant within its bound does not lose HP and stays within its
    bound. *)
Definition outlives (p p' : Participant) : Prop :=
  hp_bounded p -> current_hp p <= current_hp p' /\ hp_bounded p'.

(** An entity that falls to one hit of [plain_a]. *)
Definition frail : BallInstance := mock "#3 C" 5 1 [].

(** ** Validation of ability logic ([BallForm.clean_capacity_logic]) *)

(** Truth value of [data] in [if not data:]. *)
Definition json_truthy (j : json) : bool :=
  match j with
  | JNull => false
  | JBool b => b
  | JInt z => negb (z =? 0)
  | JFloat f => PyFloat.truthy f
  | JStr s => negb (bool_decide (s = ""%string))
  | JList l => negb (bool_decide (l = []))
  | JDict d => negb (bool_decide (d = []))
  end.

(** The value stored under a key, if the key is there. *)
Fixpoint dict_lookup (k : string) (d : list (string * json)) : option json :=
  match d with
  | [] => None
  | (k', v) :: d' => if decide (k = k') then Some v else dict_lookup k d'
  end.

(** [d.get(k)]: [None] for a missing key. *)
Definition dict_get (k : string) (d : list (string * json)) : json :=
  default JNull (dict_lookup k d).

Definition allowed_hooks : list string :=
  ["on_enter"; "on_attack"; "on_defend"; "on_exit"]%string.

Definition allowed_types : list string :=
  ["damage_multiplier"; "extra_damage"; "heal"; "shield"]%string.

(** The [forms.ValidationError] messages. *)
Inductive validation_error :=
| NotAnObject
    (* "capacity_logic must be a JSON object" *)
| UnknownHook (hook : string)
    (* "Unknown hook '{hook}' in capacity_logic" *)
| NotAList (hook : string)
    (* "Hook '{hook}' must contain a list of ability entries" *)
| EntryNotObject
    (* "Each ability entry must be an object" *)
| UnknownType (t : json)
    (* "Unknown ability type '{t}'" *)
| MissingValue.
    (* "Each ability entry must include a 'value' field" *)

(** How validation fails: by a [ValidationError], or by the [TypeError]
    that [t not in allowed_types] raises when [t] is a list or a dict,
    which a set cannot hash. *)
Inductive failure :=
| Invalid (e : validation_error)
| Unhashable (t : json).

Inductive cleaned :=
| Cleaned (data : json)
| Failed (f : failure).

(** The body of [for entry in entries]. *)
Definition check_entry (entry : json) : option failure :=
  match entry with
  | JDict d =>
      let t := dict_get "type" d in
      match t with
      | JList _ | JDict _ => Some (Unhashable t)
      | JStr s =>
          if decide (s ∈ allowed_types) then
            if dict_lookup "value" d is Some _ then None
            else Some (Invalid MissingValue)
          else Some (Invalid (UnknownType t))
      | _ => Some (Invalid (UnknownType t))
      end
  | _ => Some (Invalid EntryNotObject)
  end.

(** A [for] loop that leaves at the first failure. *)
Fixpoint first_failure {A} (check : A -> option failure) (l : list A)
  : option failure :=
  match l with
  | [] => None
  | x :: l' =>
      match check x with
      | Some f => Some f
      | None => first_failure check l'
      end
  end.

(** The body of [for hook, entries in data.items()]. *)
Definition check_hook (item : string * json) : option failure :=
  let '(hook, entries) := item in
  if decide (hook ∈ allowed_hooks) then
    match entries with
    | JList es => first_failure check_entry es
    | _ => Some (Invalid (NotAList hook))
    end
  else Some (Invalid (UnknownHook hook)).

(** [BallForm.clean_capacity_logic], on the cleaned form value. *)
Definition clean_capacity_logic (data : json) : cleaned :=
  if json_truthy data then
    match data with
    | JDict d =>
        match first_failure check_hook d with
        | Some f => Failed f
        | None => Cleaned data
        end
    | _ => Failed (Invalid NotAnObject)
    end
  else Cleaned (JDict []).

(** An entry that validation lets through. *)
Definition well_formed_entry (e : json) : Prop :=
  exists d s,
    e = JDict d /\ dict_get "type" d = JStr s /\ s ∈ allowed_types
    /\ is_Some (dict_lookup "value" d).

Definition well_formed_hook (item : string * json) : Prop :=
  item.1 ∈ allowed_hooks
  /\ exists es, item.2 = JList es /\ Forall well_formed_entry es.

(** The ability logic of the engine's data model as the JSON it stands
    for: an absent key is left out of the dict. *)
Definition json_of_value (v : value) : json :=
  match v with
  | VInt z => JInt z
  | VFloat f => JFloat f
  | VBool b => JBool b
  | VNone => JNull
  | VStr s _ _ => JStr s
  | VList l => JList l
  | VDict d => JDict d
  end.

Definition json_of_entry (e : entry) : json :=
  JDict (match e_type e with Some t => [("type"%string, JStr t)] | None => [] end
         ++ match e_value e with
            | Some v => [("value"%string, json_of_value v)]
            | None => []
            end).

Definition json_of_hook (item : string * list entry) : string * json :=
  (item.1, JList (json_of_entry <$> item.2)).

Definition json_of_logic (logic : list (string * list entry)) : json :=
  JDict (json_of_hook <$> logic).

(** ** Battle sessions ([ballsdex/packages/admin/battle_commands.py]) *)

(** A value of [_battle_sessions]. *)
Record session := {
  s_host : Z;
  s_opponent : Z;
  s_limit : Z;
  s_team_a : list Z;
  s_team_b : list Z;
  s_confirmed : gmap Z bool;
  s_channel : Z
}.

(** What the commands read of the database: [BallInstance.objects.get],
    the [discord_id] of an instance's player, and whether a [Player] row
    exists for a user. *)
Record world := {
  w_instance : Z -> option BallInstance;
  w_owner : Z -> Z;
  w_player : Z -> bool
}.

(** The messages the commands answer with. *)
Inductive reply :=
| RLimitRange
    (* "Limit must be between 1 and 3." *)
| RNoOpponent
    (* "You must specify an opponent." *)
| RStarted (session_id : string) (host opponent limit : Z)
    (* "Battle session `{session_id}` started between ..." *)
| RSessionNotFound
    (* "Session not found." *)
| RNotPart
    (* "You are not part of this session." *)
| RInstanceNotFound
    (* "BallInstance not found." *)
| RNotOwner
    (* "You do not own that countryball instance." *)
| RTeamFull (limit : Z)
    (* "Your team already has the maximum of {limit} balls." *)
| RAlreadyAdded
    (* "This instance is already added to the session." *)
| RAdded (instance_id : Z) (session_id : string)
    (* "Added instance #{instance_id} to your team in session `{session}`." *)
| RMustAdd
    (* "You must add at least one countryball before confirming." *)
| RConfirmed
    (* "You have confirmed. Waiting for the other player..." *)
| RUsage
    (* "Provide 2, 4 or 6 BallInstance ids. ..." *)
| RIdsNotFound.
    (* "One or more BallInstance ids not found." *)

(** [BattleCog.battle_start]; the session id comes from the clock. *)
Definition battle_start (session_id : string) (user channel limit : Z)
    (opponent : option Z) (ss : gmap string session)
  : gmap string session * reply :=
  if decide (limit < 1 \/ limit > 3) then (ss, RLimitRange)
  else
    match opponent with
    | None => (ss, RNoOpponent)
    | Some opp =>
        (<[session_id :=
             {| s_host := user; s_opponent := opp; s_limit := limit;
                s_team_a := []; s_team_b := [];
                s_confirmed := <[opp := false]> {[user := false]};
                s_channel := channel |}]> ss,
         RStarted session_id user opp limit)
    end.

(** The team a user adds to: team A for the host, team B otherwise. *)
Definition team_of (uid : Z) (sess : session) : list Z :=
  if decide (uid = s_host sess) then s_team_a sess else s_team_b sess.

(** [team.append(instance_id)] followed by the two resets of
    [sess["confirmed"]]. *)
Definition add_to_team (uid instance_id : Z) (sess : session) : session :=
  {| s_host := s_host sess; s_opponent := s_opponent sess;
     s_limit := s_limit sess;
     s_team_a := if decide (uid = s_host sess)
                 then s_team_a sess ++ [instance_id] else s_team_a sess;
     s_team_b := if decide (uid = s_host sess)
                 then s_team_b sess else s_team_b sess ++ [instance_id];
     s_confirmed := <[s_opponent sess := false]>
                      (<[s_host sess := false]> (s_confirmed sess));
     s_channel := s_channel sess |}.

(** [BattleCog.battle_add]. *)
Definition battle_add (w : world) (session_id : string) (uid instance_id : Z)
    (ss : gmap string session) : gmap string session * reply :=
  match ss !! session_id with
  | None => (ss, RSessionNotFound)
  | Some sess =>
      if decide (uid <> s_host sess /\ uid <> s_opponent sess)
      then (ss, RNotPart)
      else
        match w_instance w instance_id with
        | None => (ss, RInstanceNotFound)
        | Some _ =>
            if negb (w_player w uid)
               || negb (bool_decide (w_owner w instance_id = uid))
            then (ss, RNotOwner)
            else if decide (s_limit sess <= Z.of_nat (length (team_of uid sess)))
            then (ss, RTeamFull (s_limit sess))
            else if decide (instance_id ∈ s_team_a sess
                            \/ instance_id ∈ s_team_b sess)
            then (ss, RAlreadyAdded)
            else (<[session_id := add_to_team uid instance_id sess]> ss,
                  RAdded instance_id session_id)
        end
  end.

(** [sess["confirmed"][uid] = True]. *)
Definition set_confirmed (uid : Z) (sess : session) : session :=
  {| s_host := s_host sess; s_opponent := s_opponent sess;
     s_limit := s_limit sess;
     s_team_a := s_team_a sess; s_team_b := s_team_b sess;
     s_confirmed := <[uid := true]> (s_confirmed sess);
     s_channel := s_channel sess |}.

(** [all(sess["confirmed"].values())]. *)
Definition all_confirmed (sess : session) : bool :=
  bool_decide (map_Forall (fun _ v => v = true) (s_confirmed sess)).

(** [[await get(pk=i) for i in ids]]: the instances, or the first id whose
    lookup raises. *)
Fixpoint load_instances (w : world) (ids : list Z)
  : list BallInstance + Z :=
  match ids with
  | [] => inl []
  | i :: ids' =>
      match w_instance w i with
      | None => inr i
      | Some inst =>
          match load_instances w ids' with
          | inl l => inl (inst :: l)
          | inr j => inr j
          end
      end
  end.

(** What escapes a command: the [DoesNotExist] of a lookup outside any
    [try], or an exception of the engine. *)
Inductive crash :=
| DoesNotExist (pk : Z)
| EngineError (e : exn).

(** The row given to [BattleRecord.objects.create]. *)
Record battle_record := {
  r_team_a : list Z;
  r_team_b : list Z;
  r_log : list line;
  r_winner : string
}.

(** The [winner=] expression of the callers. *)
Definition winner (b : TeamBattle) : string :=
  if any_alive (team_a b) && negb (any_alive (team_b b)) then "A"
  else if any_alive (team_b b) && negb (any_alive (team_a b)) then "B"
  else "draw".

(** How [battle_confirm] ends: with one reply; or, after the reply
    "You have confirmed", with an exception or with the battle fought,
    recorded and its session deleted. *)
Inductive outcome :=
| Answered (ss : gmap string session) (r : reply)
| Crashed (ss : gmap string session) (c : crash)
| Fought (ss : gmap string session) (record : battle_record).

Definition outcome_sessions (o : outcome) : gmap string session :=
  match o with
  | Answered ss _ | Crashed ss _ | Fought ss _ => ss
  end.

(** [BattleCog.battle_confirm]. *)
Definition battle_confirm (w : world) (session_id : string) (uid : Z)
    (ss : gmap string session) : option outcome :=
  match ss !! session_id with
  | None => Some (Answered ss RSessionNotFound)
  | Some sess =>
      if decide (uid <> s_host sess /\ uid <> s_opponent sess)
      then Some (Answered ss RNotPart)
      else if decide (uid = s_host sess /\ s_team_a sess = [])
      then Some (Answered ss RMustAdd)
      else if decide (uid = s_opponent sess /\ s_team_b sess = [])
      then Some (Answered ss RMustAdd)
      else
        let sess' := set_confirmed uid sess in
        let ss' := <[session_id := sess']> ss in
        if all_confirmed sess' then
          match load_instances w (s_team_a sess') with
          | inr pk => Some (Crashed ss' (DoesNotExist pk))
          | inl a_list =>
              match load_instances w (s_team_b sess') with
              | inr pk => Some (Crashed ss' (DoesNotExist pk))
              | inl b_list =>
                  match battle a_list b_list with
                  | None => None
                  | Some (Raise e) => Some (Crashed ss' (EngineError e))
                  | Some (Ok (b, logs)) =>
                      Some (Fought (delete session_id ss')
                              {| r_team_a := s_team_a sess';
                                 r_team_b := s_team_b sess';
                                 r_log := logs;
                                 r_winner := winner b |})
                  end
              end
          end
        else Some (Answered ss' RConfirmed)
  end.

(** How the prefix command [battle] ends. *)
Inductive command_outcome :=
| Usage
| IdsNotFound
| Raised (e : exn)
| Paged (logs : list line).

(** [BattleCog.battle(ctx, *ids)]. *)
Definition battle_command (w : world) (ids : list Z) : option command_outcome :=
  if decide (length ids ∈ [2; 4; 6]%nat) then
    let half := (length ids / 2)%nat in
    match load_instances w (take half ids) with
    | inr _ => Some IdsNotFound
    | inl a_list =>
        match load_instances w (drop half ids) with
        | inr _ => Some IdsNotFound
        | inl b_list =>
            match battle a_list b_list with
            | None => None
            | Some (Raise e) => Some (Raised e)
            | Some (Ok (_, logs)) => Some (Paged logs)
            end
        end
    end
  else Some Usage.

(** The invariant of a session. *)
Definition session_ok (s : session) : Prop :=
  1 <= s_limit s <= 3
  /\ Z.of_nat (length (s_team_a s)) <= s_limit s
  /\ Z.of_nat (length (s_team_b s)) <= s_limit s
  /\ NoDup (s_team_a s ++ s_team_b s)
  /\ (s_confirmed s !! s_host s = Some true -> s_team_a s <> [])
  /\ (s_confirmed s !! s_opponent s = Some true -> s_team_b s <> [])
  /\ dom (s_confirmed s) = {[s_host s; s_opponent s]}
  /\ (s_host s = s_opponent s -> s_team_b s = []).

Definition sessions_ok (ss : gmap string session) : Prop :=
  map_Forall (fun _ s => session_ok s) ss.

(** The verdict line that a recorded winner stands for. *)
Definition verdict_of_winner (w : string) : line :=
  if decide (w = "A"%string) then LTeamAWins
  else if decide (w = "B"%string) then LTeamBWins
  else LDraw.

(** A world in which every instance exists; instance 2 belongs to user 2,
    the others to user 1. *)
Definition small_world : world :=
  {| w_instance := fun pk => Some (if decide (pk = 2) then frail else plain_a);
     w_owner := fun pk => if decide (pk = 2) then 2 else 1;
     w_player := fun _ => true |}.

(** A session of users 1 and 2 with one instance each, confirmed by the
    host only. *)
Definition duel : session :=
  {| s_host := 1; s_opponent := 2; s_limit := 3;
     s_team_a := [1]; s_team_b := [2];
     s_confirmed := <[2 := false]> {[1 := true]};
     s_channel := 0 |}.

Definition duel_store : gmap string session := {["s1"%string := duel]}.

(** A session of user 1 against themself. *)
Definition solo : session :=
  {| s_host := 1; s_opponent := 1; s_limit := 3;
     s_team_a := [1]; s_team_b := [];
     s_confirmed := <[1 := false]> {[1 := false]};
     s_channel := 0 |}.

(** * Proofs *)

(** ** The error monad *)

Lemma bind_Ok {A B} (r : result A) (k : A -> result B) v :
  mbind k r = Ok v -> exists a, r = Ok a /\ k a = Ok v.
Proof. destruct r as [a|e]; cbn; [eauto | discriminate]. Qed.

Lemma bind_Raise {A B} (r : result A) (k : A -> result B) e :
  mbind k r = Raise e -> r = Raise e \/ exists a, r = Ok a /\ k a = Raise e.
Proof. destruct r as [a|e']; cbn; [eauto | intros [= ->]; auto]. Qed.

(** Peel the binds of a hypothesis [H : ... = Ok _]. *)
Ltac ok_inv H :=
  repeat first
    [ apply bind_Ok in H; destruct H as (? & ? & H)
    | match type of H with
      | (let '(_, _) := ?x in _) = _ => destruct x
      | (match ?x with (_, _) => _ end) = _ => destruct x
      end ];
  cbn beta iota in H.

(** ** AbilityProcessor *)

#[local] Instance target_frame_refl : Reflexive target_frame.
Proof. intros [[]|]; cbn; auto. Qed.

#[local] Instance target_frame_trans : Transitive target_frame.
Proof.
  intros [x|] [y|] [z|]; cbn; try tauto.
  intros -> ->. by destruct x.
Qed.

#[local] Instance hook_frame_refl : Reflexive hook_frame.
Proof. intros [a t]; repeat split; cbn; reflexivity. Qed.

#[local] Instance hook_frame_trans : Transitive hook_frame.
Proof.
  intros [a t] [a1 t1] [a2 t2] (? & ? & ? & Ht) (? & ? & ? & Ht'); cbn in *.
  split_and!; cbn; [congruence.. | exact (transitivity Ht Ht')].
Qed.

#[local] Instance hook_heals_refl : Reflexive hook_heals.
Proof. intros [a t] ?; cbn; split; [lia | done]. Qed.

#[local] Instance hook_heals_trans : Transitive hook_heals.
Proof.
  intros x y z Hxy Hyz Hx. destruct (Hxy Hx) as [? Hy].
  destruct (Hyz Hy). split; [lia | done].
Qed.

#[local] Instance hook_keeps_hp_refl : Reflexive hook_keeps_hp.
Proof. by intros ?. Qed.

#[local] Instance hook_keeps_hp_trans : Transitive hook_keeps_hp.
Proof. unfold hook_keeps_hp. intros x y z; congruence. Qed.

#[local] Instance hook_keeps_target_refl : Reflexive hook_keeps_target.
Proof. by intros ?. Qed.

#[local] Instance hook_keeps_target_trans : Transitive hook_keeps_target.
Proof. unfold hook_keeps_target. intros x y z; congruence. Qed.

(** Case analysis on the type of an entry, following the [if]/[elif]
    chain of the source. *)
Ltac entry_cases H :=
  unfold apply_entry in H; repeat case_decide; ok_inv H.

(** What one entry can touch: on the actor everything but the entity,
    [max_hp] and the shield; on the target the shield only. *)
Lemma apply_entry_frame actor target e a' t' l :
  apply_entry actor target e = Ok (a', t', l) ->
  hook_frame (actor, target) (a', t').
Proof.
  intros H. entry_cases H.
  1-3,5: by injection H as <- <- <-.
  destruct target as [tg|]; ok_inv H; injection H as <- <- <-;
    repeat split; cbn; auto.
Qed.

Lemma apply_entry_heals actor target e a' t' l :
  apply_entry actor target e = Ok (a', t', l) ->
  hook_heals (actor, target) (a', t').
Proof.
  intros H Hb. unfold hp_bounded in *; cbn in *. entry_cases H.
  1,2,5: injection H as <- <- <-; cbn; lia.
  - injection H as <- <- <-; cbn. lia.
  - destruct target as [tg|]; ok_inv H; injection H as <- <- <-; cbn; lia.
Qed.

Lemma apply_entry_keeps_hp actor target e a' t' l :
  e_type e <> Some "heal"%string ->
  apply_entry actor target e = Ok (a', t', l) ->
  hook_keeps_hp (actor, target) (a', t').
Proof.
  intros Hne H. unfold hook_keeps_hp; cbn. entry_cases H.
  1,2,5: by injection H as <- <- <-.
  - done.
  - destruct target as [tg|]; ok_inv H; by injection H as <- <- <-.
Qed.

Lemma apply_entry_keeps_target actor target e a' t' l :
  e_type e <> Some "shield"%string ->
  apply_entry actor target e = Ok (a', t', l) ->
  hook_keeps_target (actor, target) (a', t').
Proof.
  intros Hne H. unfold hook_keeps_target; cbn. entry_cases H.
  1-3,5: by injection H as <- <- <-.
  done.
Qed.

Lemma apply_entry_lines actor target e a' t' l :
  apply_entry actor target e = Ok (a', t', l) -> Forall ability_line l.
Proof.
  intros H. entry_cases H.
  1-3,5: injection H as <- <- <-; by repeat constructor.
  destruct target as [tg|]; ok_inv H; injection H as <- <- <-;
    by repeat constructor.
Qed.

Lemma of_int_raises z e : PyFloat.of_int z = Raise e -> conversion_error e.
Proof.
  unfold PyFloat.of_int. destruct (binary_normalize _ _ _ _ _); intros [= <-].
  by left.
Qed.

Lemma to_int_raises f e : PyFloat.to_int f = Raise e -> conversion_error e.
Proof.
  destruct f; cbn; intros [= <-]; [right; by left | right; by right].
Qed.

Lemma int_mul_raises z f e : PyFloat.int_mul z f = Raise e -> conversion_error e.
Proof.
  unfold PyFloat.int_mul. intros [H|(? & _ & [=])]%bind_Raise.
  by eapply of_int_raises.
Qed.

Lemma py_float_numeric v e :
  numeric v -> py_float v = Raise e -> conversion_error e.
Proof.
  destruct v; cbn [py_float numeric]; try done. intros _. apply of_int_raises.
Qed.

Lemma py_int_numeric v e :
  numeric v -> py_int v = Raise e -> conversion_error e.
Proof.
  destruct v; cbn [py_int numeric]; try done. intros _. apply to_int_raises.
Qed.

(** What the conversion of an ability value raises. *)
Lemma value_raises v x :
  py_float v = Raise x \/ py_int v = Raise x ->
  conversion_error x \/ value_error x.
Proof.
  intros H. assert (numeric v \/ ~ numeric v) as [Hn|Hn]
    by (destruct v; cbn; tauto).
  - left. destruct H; [by eapply py_float_numeric | by eapply py_int_numeric].
  - right. by exists v.
Qed.

Create HintDb raises.
#[local] Hint Resolve of_int_raises to_int_raises int_mul_raises : raises.

(** Peel the binds of a hypothesis [H : ... = Raise _], closing the cases
    where the exception comes from a conversion. *)
Ltac raise_inv H :=
  repeat first
    [ apply bind_Raise in H;
      destruct H as [H | (? & ? & H)]; [ solve [eauto with raises] |]
    | match type of H with
      | (let '(_, _) := ?x in _) = _ => destruct x
      | (match ?x with (_, _) => _ end) = _ => destruct x
      end ];
  cbn beta iota in H;
  try solve [discriminate H | eauto with raises].

(** An entry raises in the conversion of its value or in a conversion of
    the numbers computed from it. *)
Lemma apply_entry_raises actor target e x :
  apply_entry actor target e = Raise x ->
  conversion_error x
  \/ exists v, e_value e = Some v
               /\ (py_float v = Raise x \/ py_int v = Raise x).
Proof.
  intros H. unfold apply_entry in H.
  destruct (e_value e) as [v|] eqn:Hv.
  - change (default _ (Some v)) with v in H.
    repeat case_decide; try discriminate H;
      (apply bind_Raise in H as [H | (? & _ & H)]; [right; exists v; eauto|]);
      left; try destruct target; raise_inv H.
  - left. cbn [default from_option py_float py_int mbind result_bind] in H.
    repeat case_decide; try discriminate H; try destruct target; raise_inv H.
Qed.

(** Lifting a property of single entries to a hook pass. *)
Lemma apply_entries_lift (P : entry -> Prop)
    (R : relation (Participant * option Participant))
    `{!Reflexive R, !Transitive R} :
  (forall a t e a' t' l,
      P e -> apply_entry a t e = Ok (a', t', l) -> R (a, t) (a', t')) ->
  forall es a t a' t' l,
    Forall P es -> apply_entries a t es = Ok (a', t', l) -> R (a, t) (a', t').
Proof.
  intros Hstep es. induction es as [|e es IH]; intros a t a' t' l HP H; cbn in H.
  - injection H as <- <- <-. reflexivity.
  - apply Forall_cons in HP as [He Hes]. ok_inv H.
    injection H as <- <- <-. etrans; [by eapply Hstep | by eapply IH].
Qed.

Lemma Forall_any {A} (l : list A) : Forall (fun _ => True) l.
Proof. by apply Forall_forall. Qed.

Lemma apply_abilities_frame when a t a' t' l :
  apply_abilities when a t = Ok (a', t', l) -> hook_frame (a, t) (a', t').
Proof.
  apply (apply_entries_lift (fun _ => True) hook_frame); [|apply Forall_any].
  intros; by eapply apply_entry_frame.
Qed.

Lemma apply_abilities_heals when a t a' t' l :
  apply_abilities when a t = Ok (a', t', l) -> hook_heals (a, t) (a', t').
Proof.
  apply (apply_entries_lift (fun _ => True) hook_heals); [|apply Forall_any].
  intros; by eapply apply_entry_heals.
Qed.

Lemma apply_abilities_keeps_hp when a t a' t' l :
  no_heal (instance a) ->
  apply_abilities when a t = Ok (a', t', l) -> current_hp a' = current_hp a.
Proof.
  intros Hn H.
  refine (apply_entries_lift (fun e => e_type e <> Some "heal"%string)
            hook_keeps_hp _ _ a t a' t' l (Hn when) H).
  intros; by eapply apply_entry_keeps_hp.
Qed.

Lemma apply_abilities_keeps_target when a t a' t' l :
  no_shield (instance a) when ->
  apply_abilities when a t = Ok (a', t', l) -> t' = t.
Proof.
  intros Hn H.
  refine (apply_entries_lift (fun e => e_type e <> Some "shield"%string)
            hook_keeps_target _ _ a t a' t' l Hn H).
  intros; by eapply apply_entry_keeps_target.
Qed.

Lemma apply_entries_lines es : forall a t a' t' l,
  apply_entries a t es = Ok (a', t', l) -> Forall ability_line l.
Proof.
  induction es as [|e es IH]; intros a t a' t' l H; cbn in H.
  - injection H as <- <- <-. constructor.
  - ok_inv H. injection H as <- <- <-.
    apply Forall_app; split; [by eapply apply_entry_lines | by eapply IH].
Qed.

Lemma apply_abilities_lines when a t a' t' l :
  apply_abilities when a t = Ok (a', t', l) -> Forall ability_line l.
Proof. apply apply_entries_lines. Qed.

Lemma apply_entries_raises es : forall a t x,
  apply_entries a t es = Raise x ->
  conversion_error x
  \/ exists e v, e ∈ es /\ e_value e = Some v
                 /\ (py_float v = Raise x \/ py_int v = Raise x).
Proof.
  induction es as [|e es IH]; intros a t x H; cbn in H; [discriminate|].
  apply bind_Raise in H as [H | ([[a1 t1] l1] & _ & H)].
  - apply apply_entry_raises in H as [?|(v & ? & ?)]; [by left|].
    right. exists e, v. split; [by left | done].
  - apply bind_Raise in H as [H | ([[a2 t2] l2] & _ & H)]; [|discriminate].
    apply IH in H as [?|(e' & v & ? & ?)]; [by left|].
    right. exists e', v. split; [by right | done].
Qed.

Lemma apply_abilities_raises when a t x :
  apply_abilities when a t = Raise x ->
  conversion_error x
  \/ exists e v, e ∈ hook_entries (instance a) when /\ e_value e = Some v
                 /\ (py_float v = Raise x \/ py_int v = Raise x).
Proof. apply apply_entries_raises. Qed.

(** A hook pass with a target returns that target, shield apart. *)
Lemma apply_abilities_target when a tg a' t' l :
  apply_abilities when a (Some tg) = Ok (a', t', l) ->
  exists tg', t' = Some tg' /\ tg' = set_shield_percent tg (shield_percent tg').
Proof.
  intros (_ & _ & _ & Ht)%apply_abilities_frame; cbn in Ht.
  destruct t' as [tg'|]; [eauto | done].
Qed.

(** ** One exchange *)

Lemma exchange_inv att def att' def' l :
  exchange att def = Ok (att', def', l) ->
  exists att1 def1 l1 dmg def2 att2 l2 dmg' l3,
    apply_abilities "on_attack" att (Some def) = Ok (att1, Some def1, l1)
    /\ base_damage att1 = Ok dmg
    /\ apply_abilities "on_defend" def1 (Some att1) = Ok (def2, Some att2, l2)
    /\ shield_block dmg def2 = Ok (dmg', l3)
    /\ att' = reset_attack att2
    /\ def' = set_current_hp def2 (current_hp def2 - Z.max 1 dmg')
    /\ l = l1 ++ l2 ++ l3
           ++ [LDeals (desc att2) (Z.max 1 dmg') (desc def2)
                 (Z.max (current_hp def2 - Z.max 1 dmg') 0)].
Proof.
  intros H. unfold exchange in H.
  apply bind_Ok in H as ([[att1 odef1] l1] & H1 & H).
  destruct (apply_abilities_target _ _ _ _ _ _ H1) as (def1 & -> & _).
  cbn beta iota in H.
  apply bind_Ok in H as (dmg & H2 & H).
  apply bind_Ok in H as ([[def2 oatt2] l2] & H3 & H).
  destruct (apply_abilities_target _ _ _ _ _ _ H3) as (att2 & -> & _).
  cbn beta iota in H.
  apply bind_Ok in H as ([dmg' l3] & H4 & H).
  cbn in H. injection H as <- <- <-.
  by exists att1, def1, l1, dmg, def2, att2, l2, dmg', l3.
Qed.

(** The two blocks of the source that compute the damage are the formula
    [int_damage]. *)
Lemma int_damage_blocks att def dmg dmg' l :
  base_damage att = Ok dmg ->
  shield_block dmg def = Ok (dmg', l) ->
  int_damage (attack (instance att)) (extra_damage_multiplier att)
    (extra_flat_damage att) (shield_percent def) = Ok (Z.max 1 dmg').
Proof.
  unfold base_damage, shield_block, int_damage, damage_formula.
  intros Hb Hs.
  apply bind_Ok in Hb as (x & -> & Hb). apply bind_Ok in Hb as (n & Hn & Hb).
  injection Hb as <-. cbn. rewrite Hn. cbn.
  destruct (PyFloat.truthy (shield_percent def)).
  - apply bind_Ok in Hs as (y & -> & Hs). apply bind_Ok in Hs as (r & Hr & Hs).
    injection Hs as <- <-. cbn. by rewrite Hr.
  - injection Hs as <- <-. cbn. do 2 f_equal. lia.
Qed.

(** A hook pass leaves the actor's own shield alone. *)
Lemma apply_abilities_actor_shield when a t a' t' l :
  apply_abilities when a t = Ok (a', t', l) ->
  shield_percent a' = shield_percent a.
Proof. by intros (_ & _ & ? & _)%apply_abilities_frame. Qed.

(** ** Floats *)

Lemma ltb_third_half s :
  SFltb s PyFloat.f0_3 = true -> SFltb s PyFloat.f0_5 = true.
Proof.
  unfold SFltb, PyFloat.f0_3, PyFloat.f0_5.
  destruct s as [[]|[]| |[] m e].
  1-5: vm_compute; congruence.
  - intros _. reflexivity.
  - unfold SFcompare.
    destruct (Z.compare_spec e (-54)); destruct (Z.compare_spec e (-53));
      first [exfalso; lia | intros; reflexivity | intros; discriminate].
Qed.

(** ** The model on the repository's tests *)

(** The float literals are the binary64 values of their decimals. *)
Example literals :
  PyFloat.of_int 1 = Ok PyFloat.one
  /\ PyFloat.of_int 100 = Ok PyFloat.hundred
  /\ PyFloat.of_int 2 = Ok PyFloat.f2
  /\ SFdiv PyFloat.prec PyFloat.emax PyFloat.one PyFloat.f2 = PyFloat.f0_5
  /\ (x ← PyFloat.of_int 3; y ← PyFloat.of_int 10;
      Ok (SFdiv PyFloat.prec PyFloat.emax x y)) = Ok PyFloat.f0_3
  /\ (x ← PyFloat.of_int 8; y ← PyFloat.of_int 10;
      Ok (SFdiv PyFloat.prec PyFloat.emax x y)) = Ok PyFloat.f0_8
  /\ SFopp PyFloat.f0_5 = PyFloat.fm0_5
  /\ PyFloat.of_int (2 ^ 1023) = Ok PyFloat.f2p1023.
Proof. vm_compute. by split_and!. Qed.

(** [test_simple_1v1_damage]: 20 HP and attack 5 against 10 HP and
    attack 1; the second hit of team A ends the battle. *)
Example test_simple_1v1_damage :
  transcript (battle [plain_a] [plain_b])
  = Some [LTurn 1 "#1 A" "#2 B";
          LDeals "#1 A" 5 "#2 B" 5; LDeals "#2 B" 1 "#1 A" 19;
          LTurn 2 "#1 A" "#2 B";
          LDeals "#1 A" 5 "#2 B" 0; LDefeated "#2 B";
          LTeamAWins].
Proof. vm_compute. reflexivity. Qed.

(** [test_ability_extra_damage_and_shield], first turn: the attack of 5
    gains 3, the defender's shield goes to the attacker, the defender takes
    8 and its own hit of 4 is halved. *)
Example test_ability_extra_damage_and_shield :
  take 6 <$> transcript (battle [striker] [shielder])
  = Some [LTurn 1 "#10 Mock" "#20 Mock";
          LGains "#10 Mock" 3; LGrants "#20 Mock" 50 "#10 Mock";
          LDeals "#10 Mock" 8 "#20 Mock" 22;
          LAbsorbs "#10 Mock" 2; LDeals "#20 Mock" 2 "#10 Mock" 18].
Proof. vm_compute. reflexivity. Qed.

(** [test_heal_and_multiplier], up to the first hit: the heal at full HP
    logs 5, the attack of 4 is doubled. *)
Example test_heal_and_multiplier :
  take 4 <$> transcript (battle [healer] [dummy])
  = Some [LHeals "#50 Mock" 5; LTurn 1 "#50 Mock" "#60 Mock";
          LUses "#50 Mock" PyFloat.f2; LDeals "#50 Mock" 8 "#60 Mock" 22].
Proof. vm_compute. reflexivity. Qed.

(** ** Construction *)

(** C9: constructing a [TeamBattle] with an empty team, on either side,
    raises the [ValueError] of line 62 at once: no [TeamBattle] value, hence
    no participant, exists and [run] is never entered.  With two non-empty
    teams the construction succeeds and builds one participant for each of
    the first three entities of each team. *)
Theorem init_requires_both_teams (ta tb : list BallInstance) :
  (ta = [] \/ tb = [] ->
     TeamBattle_init ta tb
       = Raise (ValueError "Both teams must have at least one BallInstance")
     /\ battle ta tb
       = Some (Raise (ValueError "Both teams must have at least one BallInstance")))
  /\ (ta <> [] -> tb <> [] ->
     TeamBattle_init ta tb
       = Ok {| team_a := make_participant <$> take 3 ta;
               team_b := make_participant <$> take 3 tb |}).
Proof.
  split.
  - unfold battle. intros [-> | ->]; [done|]. by destruct ta.
  - intros Ha Hb. by destruct ta, tb.
Qed.

Lemma init_requires_both_teams_witness :
  TeamBattle_init [] [plain_b]
    = Raise (ValueError "Both teams must have at least one BallInstance")
  /\ TeamBattle_init [plain_a] [plain_b]
    = Ok {| team_a := make_participant <$> take 3 [plain_a];
            team_b := make_participant <$> take 3 [plain_b] |}.
Proof.
  split.
  - apply (proj1 (init_requires_both_teams [] [plain_b])).
    left. reflexivity.
  - apply (proj2 (init_requires_both_teams [plain_a] [plain_b])); discriminate.
Defined.

(** ** Shield grants *)

Lemma apply_entry_shield actor tg pct :
  apply_entry actor (Some tg) (shield_entry pct)
  = (pct100 ← PyFloat.to_int (PyFloat.mul pct PyFloat.hundred);
     Ok (actor,
         Some (set_shield_percent tg (PyFloat.max (shield_percent tg) pct)),
         [LGrants (desc actor) pct100 (desc tg)])).
Proof.
  unfold apply_entry, shield_entry, ability; cbn [e_type e_value default].
  repeat (case_decide; [discriminate|]). by case_decide.
Qed.

(** C7, as stated, fails: a participant that holds a shield of 0.8 from an
    earlier grant still holds 0.8, not 0.5, after being granted 0.3 and
    then 0.5. *)
Lemma grants_yield_half_counterexample : ~ grants_yield_half.
Proof.
  intros Hc.
  assert (shield_percent shielded_striker = PyFloat.f0_5) as H.
  { eapply (Hc (make_participant shielder) shielded_striker).
    vm_compute. reflexivity. }
  vm_compute in H. discriminate.
Qed.

(** C7, amended: a shield entry changes nothing but the target's
    [shield_percent], which becomes the value granted when the value held
    is less than it, and stays as it is otherwise: the larger of the two,
    never their sum.  Granting 0.3 and then 0.5 leaves 0.5 on a participant
    whose shield was below 0.5 (a fresh one has 0.0), and leaves the shield
    of any other participant as it was. *)
Theorem shield_grants_do_not_stack :
  (forall actor tg e a' t' l,
      e_type e = Some "shield"%string ->
      apply_entry actor (Some tg) e = Ok (a', t', l) ->
      exists pct tg',
        py_float (default (VFloat PyFloat.zero) (e_value e)) = Ok pct
        /\ a' = actor /\ t' = Some tg'
        /\ shield_percent tg'
           = (if SFltb (shield_percent tg) pct then pct else shield_percent tg)
        /\ tg' = set_shield_percent tg (shield_percent tg'))
  /\ (forall actor tg,
      exists tg',
        apply_entries actor (Some tg)
          [shield_entry PyFloat.f0_3; shield_entry PyFloat.f0_5]
        = Ok (actor, Some tg',
              [LGrants (desc actor) 30 (desc tg);
               LGrants (desc actor) 50 (desc tg)])
        /\ shield_percent tg'
           = (if SFltb (shield_percent tg) PyFloat.f0_5
              then PyFloat.f0_5 else shield_percent tg)
        /\ tg' = set_shield_percent tg (shield_percent tg'))
  /\ PyFloat.f0_5 <> PyFloat.f0_8.
Proof.
  split_and!.
  - intros actor tg e a' t' l He H. unfold apply_entry in H.
    repeat (case_decide; [congruence|]). case_decide; [|done].
    apply bind_Ok in H as (pct & Hpct & H).
    apply bind_Ok in H as (pct100 & _ & H). injection H as <- <- <-.
    exists pct, (set_shield_percent tg (PyFloat.max (shield_percent tg) pct)).
    split_and!; [done | done | done | reflexivity | reflexivity].
  - intros actor tg. eexists. split_and!.
    + cbn [apply_entries]. rewrite apply_entry_shield.
      assert (PyFloat.to_int (PyFloat.mul PyFloat.f0_3 PyFloat.hundred) = Ok 30)
        as -> by (vm_compute; reflexivity).
      cbn [mbind result_bind]. rewrite apply_entry_shield.
      assert (PyFloat.to_int (PyFloat.mul PyFloat.f0_5 PyFloat.hundred) = Ok 50)
        as -> by (vm_compute; reflexivity).
      cbn [mbind result_bind]. reflexivity.
    + cbn [shield_percent set_shield_percent].
      unfold PyFloat.max, PyFloat.ltb.
      destruct (SFltb (shield_percent tg) PyFloat.f0_3) eqn:H3.
      * rewrite (ltb_third_half _ H3).
        assert (SFltb PyFloat.f0_3 PyFloat.f0_5 = true) as ->
          by (vm_compute; reflexivity).
        reflexivity.
      * reflexivity.
    + reflexivity.
  - discriminate.
Qed.

Lemma shield_grants_do_not_stack_witness :
  exists tg',
    apply_entries (make_participant shielder) (Some (make_participant striker))
      [shield_entry PyFloat.f0_3; shield_entry PyFloat.f0_5]
    = Ok (make_participant shielder, Some tg',
          [LGrants "#20 Mock" 30 "#10 Mock"; LGrants "#20 Mock" 50 "#10 Mock"])
    /\ shield_percent tg' = PyFloat.f0_5.
Proof.
  destruct (proj1 (proj2 shield_grants_do_not_stack)
              (make_participant shielder) (make_participant striker))
    as (tg' & H & Hs & _).
  exists tg'. split; [exact H|]. rewrite Hs. vm_compute. reflexivity.
Defined.

(** ** Heals *)

(** C3, as stated, fails: the participant built from the entity of
    [test_heal_and_multiplier] has 10 of 10 HP, its [heal] entry logs 5 HP
    and its HP stays 10. *)
Lemma heal_raises_hp_counterexample : ~ heal_raises_hp.
Proof.
  intros Hc.
  pose proof (Hc (make_participant healer) None
                (ability "heal" (VFloat PyFloat.f0_5))
                (set_current_hp (make_participant healer) 10) None
                [LHeals "#50 Mock" 5] eq_refl) as H.
  assert (apply_entry (make_participant healer) None
            (ability "heal" (VFloat PyFloat.f0_5))
          = Ok (set_current_hp (make_participant healer) 10, None,
                [LHeals "#50 Mock" 5])) as Heq by (vm_compute; reflexivity).
  specialize (H Heq). vm_compute in H. exact (H eq_refl).
Qed.

(** C3, amended: a heal entry that does not raise computes
    [heal = max(1, int(max_hp * value))], which is at least 1 also for
    value 0, logs it, and sets [current_hp] to
    [min(current_hp + heal, max_hp)]: the HP rises by at least 1 when the
    actor is below [max_hp], and does not rise when it is at [max_hp]. *)
Theorem heal_amount_and_clamp actor target e a' t' l :
  e_type e = Some "heal"%string ->
  apply_entry actor target e = Ok (a', t', l) ->
  exists pct x n,
    py_float (default (VFloat PyFloat.zero) (e_value e)) = Ok pct
    /\ PyFloat.int_mul (max_hp actor) pct = Ok x
    /\ PyFloat.to_int x = Ok n
    /\ 1 <= Z.max 1 n
    /\ l = [LHeals (desc actor) (Z.max 1 n)]
    /\ current_hp a' = Z.min (current_hp actor + Z.max 1 n) (max_hp actor)
    /\ (current_hp actor < max_hp actor -> current_hp actor + 1 <= current_hp a')
    /\ (current_hp actor = max_hp actor -> current_hp a' = current_hp actor).
Proof.
  intros He H. unfold apply_entry in H.
  repeat (case_decide; [congruence|]). case_decide; [|done].
  apply bind_Ok in H as (pct & Hpct & H).
  apply bind_Ok in H as (x & Hx & H).
  apply bind_Ok in H as (n & Hn & H). injection H as <- <- <-.
  exists pct, x, n. cbn. split_and!; auto; lia.
Qed.

Lemma heal_amount_and_clamp_witness :
  exists pct x n,
    py_float (default (VFloat PyFloat.zero) (Some (VFloat PyFloat.zero))) = Ok pct
    /\ PyFloat.int_mul 10 pct = Ok x
    /\ PyFloat.to_int x = Ok n
    /\ 1 <= Z.max 1 n
    /\ [LHeals "#50 Mock" 1] = [LHeals "#50 Mock" (Z.max 1 n)]
    /\ 8 = Z.min (7 + Z.max 1 n) 10
    /\ (7 < 10 -> 7 + 1 <= 8)
    /\ (7 = 10 -> 8 = 7).
Proof.
  apply (heal_amount_and_clamp
           (set_current_hp (make_participant healer) 7) None
           (ability "heal" (VFloat PyFloat.zero))
           (set_current_hp (make_participant healer) 8) None
           [LHeals "#50 Mock" 1]).
  - reflexivity.
  - vm_compute. reflexivity.
Defined.

(** ** The damage of an exchange *)

(** C2, as stated, fails on the formula: with attack 5, a multiplier of
    -0.5 and a flat bonus of 4 the program deals
    [max(1, int(-2.5) + 4) = 2], where the formula with floor gives
    [max(1, -3 + 4) = 1]. *)
Lemma floor_formula_counterexample : ~ exchange_damage_is spec_damage.
Proof.
  intros Hc.
  edestruct (Hc (make_participant backhander) (make_participant dummy))
    as (d & Hd & _ & Hhp).
  - vm_compute. reflexivity.
  - vm_compute. reflexivity.
  - vm_compute. reflexivity.
  - vm_compute in Hd. injection Hd as <-. vm_compute in Hhp. discriminate.
Qed.

(** C2, amended: in every exchange that does not raise, the damage taken
    from the defender's [current_hp] is at least 1 and is
    [max(1, int(attack * multiplier) + flat - reduction)], where [int]
    truncates toward zero (it is floor on non-negative products only) and
    [reduction = int(pre-shield damage * shield_percent)] is applied
    whenever the defender's [shield_percent] is non-zero. *)
Theorem exchange_damage_at_least_one att def att' def' l :
  exchange att def = Ok (att', def', l) ->
  exists att1 def1 l1 def2 att2 l2 d,
    apply_abilities "on_attack" att (Some def) = Ok (att1, Some def1, l1)
    /\ apply_abilities "on_defend" def1 (Some att1) = Ok (def2, Some att2, l2)
    /\ int_damage (attack (instance att1)) (extra_damage_multiplier att1)
         (extra_flat_damage att1) (shield_percent def2) = Ok d
    /\ 1 <= d
    /\ current_hp def' = current_hp def2 - d.
Proof.
  intros (att1 & def1 & l1 & dmg & def2 & att2 & l2 & dmg' & l3
          & H1 & Hb & H2 & Hs & -> & -> & ->)%exchange_inv.
  exists att1, def1, l1, def2, att2, l2, (Z.max 1 dmg').
  split_and!; auto; [by eapply int_damage_blocks | lia].
Qed.

Lemma exchange_damage_at_least_one_witness :
  exists att1 def1 l1 def2 att2 l2 d,
    apply_abilities "on_attack" (make_participant backhander)
      (Some (make_participant dummy)) = Ok (att1, Some def1, l1)
    /\ apply_abilities "on_defend" def1 (Some att1) = Ok (def2, Some att2, l2)
    /\ int_damage (attack (instance att1)) (extra_damage_multiplier att1)
         (extra_flat_damage att1) (shield_percent def2) = Ok d
    /\ 1 <= d
    /\ current_hp (set_current_hp (make_participant dummy) 28)
       = current_hp def2 - d.
Proof.
  apply (exchange_damage_at_least_one
           (make_participant backhander) (make_participant dummy)
           (make_participant backhander)
           (set_current_hp (make_participant dummy) 28)
           [LUses "#70 Mock" PyFloat.fm0_5; LGains "#70 Mock" 4;
            LDeals "#70 Mock" 2 "#60 Mock" 28]).
  vm_compute. reflexivity.
Defined.

(** ** The hooks of an exchange *)

(** C4, as stated, fails: in [test_ability_extra_damage_and_shield] the
    defender grants a 50% shield in [on_defend] and still takes the full
    8 damage of that exchange (30 HP to 22), not 4. *)
Lemma on_defend_shield_counterexample : ~ on_defend_shield_reduces_hit.
Proof.
  intros Hc.
  edestruct (Hc (make_participant striker) (make_participant shielder))
    as (d & Hd & Hhp).
  - vm_compute. reflexivity.
  - vm_compute. reflexivity.
  - vm_compute. reflexivity.
  - vm_compute in Hd. injection Hd as <-. vm_compute in Hhp. discriminate.
Qed.

(** C4, amended: in an attack step [on_attack] fires on the attacker with
    the defender as target, then [on_defend] fires on the defender with
    the attacker as target, and the shield reduction and the final damage
    are computed after both.  A shield granted in [on_defend] goes to the
    target of that hook, the attacker: when the defender's [on_defend] hook
    is one shield entry, the attacker's [shield_percent] becomes the value
    granted if it held less, and the attacker leaves the exchange with it.
    [on_defend] leaves the defender's own [shield_percent] as it was and
    changes nothing of the attacker but its shield, so the hit of the
    exchange is the one computed with the shield that the defender held
    when [on_defend] started. *)
Theorem on_defend_does_not_shield_defender att def att' def' l :
  exchange att def = Ok (att', def', l) ->
  exists att1 def1 l1 def2 att2 l2 d l3,
    apply_abilities "on_attack" att (Some def) = Ok (att1, Some def1, l1)
    /\ apply_abilities "on_defend" def1 (Some att1) = Ok (def2, Some att2, l2)
    /\ shield_percent def2 = shield_percent def1
    /\ att2 = set_shield_percent att1 (shield_percent att2)
    /\ int_damage (attack (instance att1)) (extra_damage_multiplier att1)
         (extra_flat_damage att1) (shield_percent def1) = Ok d
    /\ current_hp def' = current_hp def2 - d
    /\ l = l1 ++ l2 ++ l3
    /\ shield_percent att' = shield_percent att2
    /\ (forall pct,
        hook_entries (instance def) "on_defend" = [shield_entry pct] ->
        shield_percent att2
        = (if SFltb (shield_percent att1) pct
           then pct else shield_percent att1)).
Proof.
  intros (att1 & def1 & l1 & dmg & def2 & att2 & l2 & dmg' & l3
          & H1 & Hb & H2 & Hs & -> & -> & ->)%exchange_inv.
  pose proof (apply_abilities_actor_shield _ _ _ _ _ _ H2) as Hsh.
  destruct (apply_abilities_target _ _ _ _ _ _ H2) as (? & [= <-] & Hatt).
  eexists att1, def1, l1, def2, att2, l2, (Z.max 1 dmg'), _.
  split_and!; eauto.
  - rewrite <- Hsh. by eapply int_damage_blocks.
  - intros pct Hhook.
    destruct (apply_abilities_target _ _ _ _ _ _ H1) as (? & [= <-] & Hdef1).
    assert (instance def1 = instance def) as Hinst by (by rewrite Hdef1).
    unfold apply_abilities in H2.
    change (default [] (logic_of def1 !! "on_defend"%string))
      with (hook_entries (instance def1) "on_defend") in H2.
    rewrite Hinst, Hhook in H2. cbn [apply_entries] in H2.
    rewrite apply_entry_shield in H2.
    apply bind_Ok in H2 as ([[a1 t1] k1] & H2 & H3).
    apply bind_Ok in H2 as (pct100 & _ & H2). injection H2 as <- <- <-.
    cbn in H3. injection H3 as <- <- <-. reflexivity.
Qed.

Lemma on_defend_does_not_shield_defender_witness :
  exists att1 def1 l1 def2 att2 l2 d l3,
    apply_abilities "on_attack" (make_participant striker)
      (Some (make_participant shielder)) = Ok (att1, Some def1, l1)
    /\ apply_abilities "on_defend" def1 (Some att1) = Ok (def2, Some att2, l2)
    /\ shield_percent def2 = shield_percent def1
    /\ att2 = set_shield_percent att1 (shield_percent att2)
    /\ int_damage (attack (instance att1)) (extra_damage_multiplier att1)
         (extra_flat_damage att1) (shield_percent def1) = Ok d
    /\ current_hp (set_current_hp (make_participant shielder) 22)
       = current_hp def2 - d
    /\ [LGains "#10 Mock" 3; LGrants "#20 Mock" 50 "#10 Mock";
        LDeals "#10 Mock" 8 "#20 Mock" 22] = l1 ++ l2 ++ l3
    /\ shield_percent
         (set_shield_percent (make_participant striker) PyFloat.f0_5)
       = shield_percent att2
    /\ shield_percent att2 = PyFloat.f0_5
    /\ shield_percent def2 = PyFloat.zero.
Proof.
  destruct (on_defend_does_not_shield_defender
              (make_participant striker) (make_participant shielder)
              (set_shield_percent (make_participant striker) PyFloat.f0_5)
              (set_current_hp (make_participant shielder) 22)
              [LGains "#10 Mock" 3; LGrants "#20 Mock" 50 "#10 Mock";
               LDeals "#10 Mock" 8 "#20 Mock" 22])
    as (att1 & def1 & l1 & def2 & att2 & l2 & d & l3
        & H1 & H2 & Hd & Ha & Hi & Hhp & Hl & Hk & Hg).
  { vm_compute. reflexivity. }
  exists att1, def1, l1, def2, att2, l2, d, l3.
  split_and!; try done.
  rewrite Hd. vm_compute in H1. by injection H1 as <- <- <-.
Defined.

(** ** The reset after an attack *)

(** C8: when an exchange has resolved, the attacker's
    [extra_damage_multiplier] is 1.0 and its [extra_flat_damage] is 0; the
    resolution (damage and reset, lines 110-115) leaves both shields as the
    hooks left them, and a shield changes during the exchange only by a
    shield entry of the other side's hook. *)
Theorem attack_resets_bonuses_not_shields att def att' def' l :
  exchange att def = Ok (att', def', l) ->
  extra_damage_multiplier att' = PyFloat.one
  /\ extra_flat_damage att' = 0
  /\ (exists att1 def1 l1 def2 att2 l2 dmg l3,
        apply_abilities "on_attack" att (Some def) = Ok (att1, Some def1, l1)
        /\ apply_abilities "on_defend" def1 (Some att1) = Ok (def2, Some att2, l2)
        /\ resolve_attack dmg att2 def2 = (att', def', l3)
        /\ shield_percent att' = shield_percent att2
        /\ shield_percent def' = shield_percent def2)
  /\ (no_shield (instance att) "on_attack" ->
      shield_percent def' = shield_percent def)
  /\ (no_shield (instance def) "on_defend" ->
      shield_percent att' = shield_percent att).
Proof.
  intros (att1 & def1 & l1 & dmg & def2 & att2 & l2 & dmg' & l3
          & H1 & Hb & H2 & Hs & -> & -> & ->)%exchange_inv.
  split_and!; [done | done | | |].
  - eexists att1, def1, l1, def2, att2, l2, dmg', _. by split_and!.
  - intros Hn. cbn.
    rewrite (apply_abilities_actor_shield _ _ _ _ _ _ H2).
    apply apply_abilities_keeps_target in H1; [|done]. congruence.
  - intros Hn. cbn.
    destruct (apply_abilities_frame _ _ _ _ _ _ H1) as (_ & _ & _ & Ht).
    cbn in Ht.
    assert (instance def1 = instance def) as Hi by (by rewrite Ht).
    apply apply_abilities_keeps_target in H2;
      [| by rewrite Hi]. injection H2 as ->.
    by apply apply_abilities_actor_shield in H1.
Qed.

Lemma attack_resets_bonuses_not_shields_witness :
  extra_damage_multiplier (make_participant healer) = PyFloat.one
  /\ extra_flat_damage (make_participant healer) = 0
  /\ (exists att1 def1 l1 def2 att2 l2 dmg l3,
        apply_abilities "on_attack" (make_participant healer)
          (Some (make_participant dummy)) = Ok (att1, Some def1, l1)
        /\ apply_abilities "on_defend" def1 (Some att1) = Ok (def2, Some att2, l2)
        /\ resolve_attack dmg att2 def2
           = (make_participant healer,
              set_current_hp (make_participant dummy) 22, l3)
        /\ shield_percent (make_participant healer) = shield_percent att2
        /\ shield_percent (set_current_hp (make_participant dummy) 22)
           = shield_percent def2)
  /\ (no_shield (instance (make_participant healer)) "on_attack" ->
      shield_percent (set_current_hp (make_participant dummy) 22)
      = shield_percent (make_participant dummy))
  /\ (no_shield (instance (make_participant dummy)) "on_defend" ->
      shield_percent (make_participant healer)
      = shield_percent (make_participant healer)).
Proof.
  apply (attack_resets_bonuses_not_shields
           (make_participant healer) (make_participant dummy)
           (make_participant healer)
           (set_current_hp (make_participant dummy) 22)
           [LUses "#50 Mock" PyFloat.f2; LDeals "#50 Mock" 8 "#60 Mock" 22]).
  vm_compute. reflexivity.
Defined.

(** ** Participants and teams along a battle *)

#[local] Instance evolves_refl : Reflexive evolves.
Proof. intros p. unfold evolves. split_and!; auto; lia. Qed.

#[local] Instance evolves_trans : Transitive evolves.
Proof.
  intros p q r (Hi & Hm & Hb & Hh) (Hi' & Hm' & Hb' & Hh').
  split_and!; [congruence | congruence | auto |].
  intros Hn. specialize (Hh Hn). rewrite <- Hi in Hn. specialize (Hh' Hn). lia.
Qed.

Lemma ability_line_phase l : ability_line l -> phase_line l.
Proof. by destruct l. Qed.

Lemma phase_line_body l : phase_line l -> body_line l.
Proof. by destruct l. Qed.

Lemma set_shield_evolves p s : evolves p (set_shield_percent p s).
Proof. unfold evolves, hp_bounded; cbn. split_and!; auto; lia. Qed.

Lemma reset_attack_evolves p : evolves p (reset_attack p).
Proof. unfold evolves, hp_bounded; cbn. split_and!; auto; lia. Qed.

Lemma hit_evolves p d : 1 <= d -> evolves p (set_current_hp p (current_hp p - d)).
Proof. intros. unfold evolves, hp_bounded; cbn. split_and!; auto; lia. Qed.

(** A hook pass: how the actor and the target come out of it. *)
Lemma apply_abilities_evolves when a tg a' t' l :
  apply_abilities when a (Some tg) = Ok (a', t', l) ->
  exists tg', t' = Some tg' /\ evolves a a' /\ evolves tg tg'
    /\ current_hp tg' = current_hp tg
    /\ (no_heal (instance a) -> current_hp a' = current_hp a)
    /\ Forall phase_line l.
Proof.
  intros H.
  destruct (apply_abilities_target _ _ _ _ _ _ H) as (tg' & -> & Htg).
  destruct (apply_abilities_frame _ _ _ _ _ _ H) as (Hi & Hm & _ & _).
  pose proof (apply_abilities_heals _ _ _ _ _ _ H) as Hh.
  cbn in Hi, Hm, Hh. exists tg'. split_and!; auto.
  - split_and!; auto; [by apply Hh|].
    intros Hn. by rewrite (apply_abilities_keeps_hp _ _ _ _ _ _ Hn H).
  - rewrite Htg. apply set_shield_evolves.
  - by rewrite Htg.
  - intros Hn. by eapply apply_abilities_keeps_hp.
  - eapply Forall_impl; [by eapply apply_abilities_lines|].
    apply ability_line_phase.
Qed.

Lemma apply_abilities_evolves_alone when a a' t' l :
  apply_abilities when a None = Ok (a', t', l) ->
  evolves a a' /\ Forall phase_line l.
Proof.
  intros H.
  destruct (apply_abilities_frame _ _ _ _ _ _ H) as (Hi & Hm & _ & _).
  pose proof (apply_abilities_heals _ _ _ _ _ _ H) as Hh.
  cbn in Hi, Hm, Hh. split.
  - split_and!; auto; [by apply Hh|].
    intros Hn. by rewrite (apply_abilities_keeps_hp _ _ _ _ _ _ Hn H).
  - eapply Forall_impl; [by eapply apply_abilities_lines|].
    apply ability_line_phase.
Qed.

Lemma shield_block_lines dmg def dmg' l :
  shield_block dmg def = Ok (dmg', l) -> Forall phase_line l.
Proof.
  unfold shield_block. destruct (PyFloat.truthy _); intros H.
  - apply bind_Ok in H as (x & _ & H). apply bind_Ok in H as (r & _ & H).
    injection H as <- <-. by repeat constructor.
  - injection H as <- <-. constructor.
Qed.

(** An exchange: both participants evolve, and a defender without heal
    entries loses at least 1 HP. *)
Lemma exchange_evolves att def att' def' l :
  exchange att def = Ok (att', def', l) ->
  evolves att att' /\ evolves def def'
  /\ (no_heal (instance def) -> current_hp def' <= current_hp def - 1)
  /\ Forall phase_line l.
Proof.
  intros (att1 & def1 & l1 & dmg & def2 & att2 & l2 & dmg' & l3
          & H1 & Hb & H2 & Hs & -> & -> & ->)%exchange_inv.
  apply apply_abilities_evolves in H1
    as (? & [= <-] & Ha1 & Hd1 & Hhp1 & _ & Hl1).
  apply apply_abilities_evolves in H2
    as (? & [= <-] & Hd2 & Ha2 & _ & Hhp2 & Hl2).
  split_and!.
  - etrans; [exact Ha1|]. etrans; [exact Ha2|]. apply reset_attack_evolves.
  - etrans; [exact Hd1|]. etrans; [exact Hd2|]. apply hit_evolves. lia.
  - intros Hn. cbn. destruct Hd1 as (Hi & _). rewrite <- Hi in Hn.
    rewrite (Hhp2 Hn), Hhp1. lia.
  - repeat (apply Forall_app; split); auto.
    + by eapply shield_block_lines.
    + by repeat constructor.
Qed.

Lemma active_Some team i p :
  active team = Some (i, p) -> team !! i = Some p /\ 0 < current_hp p.
Proof. unfold active. intros (? & ? & _)%list_find_Some. done. Qed.

Lemma insert_evolves team i p p' :
  team !! i = Some p -> evolves p p' -> Forall2 evolves team (<[i:=p']> team).
Proof.
  intros Hi He. rewrite <- (list_insert_id team i p) at 1 by done.
  by apply Forall2_insert.
Qed.

(** The defeat block, on teams in which the two participants of the
    exchange have been written back. *)
Lemma defeat_block_evolves i j att def att_team def_team ta td l :
  (i < length att_team)%nat -> (j < length def_team)%nat ->
  defeat_block i j att def att_team def_team = Ok (ta, td, l) ->
  Forall2 evolves (<[i:=att]> att_team) ta
  /\ Forall2 evolves (<[j:=def]> def_team) td
  /\ Forall phase_line l.
Proof.
  intros Hi Hj H. unfold defeat_block in H. case_decide as Hhp.
  - apply bind_Ok in H as ([[def1 oatt1] l1] & H1 & H).
    apply apply_abilities_evolves in H1
      as (att1 & -> & Hd1 & Ha1 & _ & _ & Hl1).
    cbn beta iota in H. cbn [default] in H.
    assert (Forall2 evolves (<[i:=att]> att_team) (<[i:=att1]> att_team)) as HA
      by (by apply Forall2_insert).
    assert (Forall2 evolves (<[j:=def]> def_team) (<[j:=def1]> def_team)) as HD
      by (by apply Forall2_insert).
    destruct (active (<[j:=def1]> def_team)) as [[k nxt]|] eqn:Hact.
    + apply bind_Ok in H as ([[nxt1 oatt2] l2] & H2 & H).
      apply apply_abilities_evolves in H2
        as (att2 & -> & Hn1 & Ha2 & _ & _ & Hl2).
      cbn in H. injection H as <- <- <-.
      apply active_Some in Hact as [Hk _]. split_and!.
      * etrans; [exact HA|]. apply Forall2_insert; [reflexivity | done].
      * etrans; [exact HD|]. by eapply insert_evolves.
      * constructor; [done|]. by apply Forall_app.
    + injection H as <- <- <-. split_and!; auto. by constructor.
  - injection H as <- <- <-. split_and!; [reflexivity | reflexivity | constructor].
Qed.

Lemma team_hp_cons p team :
  team_hp (p :: team) = Z.max 0 (current_hp p) + team_hp team.
Proof. reflexivity. Qed.

Lemma team_hp_nonneg team : 0 <= team_hp team.
Proof. induction team; [done|]. rewrite team_hp_cons. lia. Qed.

Lemma team_hp_insert team i p p' :
  team !! i = Some p ->
  team_hp (<[i:=p']> team)
  = team_hp team - Z.max 0 (current_hp p) + Z.max 0 (current_hp p').
Proof.
  revert i. induction team as [|q team IH]; intros [|i] H; try done.
  - injection H as ->. change (<[0%nat:=p']> (p :: team)) with (p' :: team).
    rewrite !team_hp_cons. lia.
  - cbn in H. change (<[S i:=p']> (q :: team)) with (q :: <[i:=p']> team).
    rewrite !team_hp_cons, (IH _ H). lia.
Qed.

Lemma team_hp_active team i p : active team = Some (i, p) -> 1 <= team_hp team.
Proof.
  intros [Hi Hp]%active_Some.
  pose proof (team_hp_insert team i p p Hi) as H.
  rewrite list_insert_id in H by done.
  pose proof (team_hp_nonneg (<[i:=set_current_hp p 0]> team)) as H0.
  rewrite (team_hp_insert team i p _ Hi) in H0. cbn in H0. lia.
Qed.

Lemma team_evolves_no_heal t t' :
  Forall2 evolves t t' -> team_no_heal t -> team_no_heal t'.
Proof.
  unfold team_no_heal. induction 1 as [|p p' t t' (Hi & _) _ IH]; intros Hn.
  - constructor.
  - apply Forall_cons in Hn as [? ?]. constructor; [by rewrite Hi | auto].
Qed.

Lemma team_evolves_hp t t' :
  Forall2 evolves t t' -> team_no_heal t -> team_hp t' <= team_hp t.
Proof.
  unfold team_no_heal. induction 1 as [|p p' t t' (_ & _ & _ & Hh) _ IH];
    intros Hn; [done|]. rewrite !team_hp_cons.
  apply Forall_cons in Hn as [Hp Ht]. specialize (Hh Hp). specialize (IH Ht). lia.
Qed.

Lemma team_evolves_hp_ok t t' :
  Forall2 evolves t t' -> Forall hp_ok t -> Forall hp_ok t'.
Proof.
  induction 1 as [|p p' t t' (Hi & Hm & Hb & _) _ IH]; intros Hn; [constructor|].
  apply Forall_cons in Hn as [[Hp Hq] Ht]. constructor; [|auto].
  split; [by apply Hb | congruence].
Qed.

(** One side attacks: both teams evolve and, without heal entries, the
    team attacked loses at least 1 HP in total. *)
Lemma attack_phase_evolves i j att def att_team def_team ta td l :
  att_team !! i = Some att -> def_team !! j = Some def ->
  0 < current_hp def ->
  attack_phase i j att def att_team def_team = Ok (ta, td, l) ->
  Forall2 evolves att_team ta /\ Forall2 evolves def_team td
  /\ Forall phase_line l
  /\ (team_no_heal def_team -> team_hp td <= team_hp def_team - 1).
Proof.
  intros Hi Hj Hpos H. unfold attack_phase in H.
  apply bind_Ok in H as ([[att1 def1] l1] & Hx & H).
  apply bind_Ok in H as ([[ta' td'] l2] & Hd & H).
  injection H as <- <- <-.
  apply exchange_evolves in Hx as (Ha & Hdf & Hstrict & Hl1).
  apply defeat_block_evolves in Hd as (HA & HD & Hl2);
    [| by eapply lookup_lt_Some..].
  pose proof (insert_evolves _ _ _ _ Hi Ha) as HA0.
  pose proof (insert_evolves _ _ _ _ Hj Hdf) as HD0.
  split_and!.
  - by etrans.
  - by etrans.
  - by apply Forall_app.
  - intros Hn.
    pose proof (team_evolves_no_heal _ _ HD0 Hn) as Hn1.
    pose proof (team_evolves_hp _ _ HD Hn1) as Hle.
    rewrite (team_hp_insert _ _ _ _ Hj) in Hle.
    assert (no_heal (instance def)) as Hnd.
    { unfold team_no_heal in Hn. rewrite Forall_lookup in Hn. by eapply Hn. }
    specialize (Hstrict Hnd). lia.
Qed.

(** ** Passes of the loop *)

#[local] Instance battle_evolves_refl : Reflexive battle_evolves.
Proof. intros b; split; reflexivity. Qed.

#[local] Instance battle_evolves_trans : Transitive battle_evolves.
Proof. intros b1 b2 b3 [? ?] [? ?]; split; by etrans. Qed.

Lemma battle_evolves_no_heal b b' :
  battle_evolves b b' -> battle_no_heal b -> battle_no_heal b'.
Proof. intros [? ?] [? ?]; split; by eapply team_evolves_no_heal. Qed.

Lemma battle_evolves_hp_ok b b' :
  battle_evolves b b' -> battle_hp_ok b -> battle_hp_ok b'.
Proof. intros [? ?] [? ?]; split; by eapply team_evolves_hp_ok. Qed.

(** A pass through the loop body: the teams evolve; the lines are a turn
    header followed by phase lines, or nothing when the first [break] is
    taken; a pass that reaches line 153 has cost each team at least 1 HP
    when no entity heals. *)
Lemma turn_body_evolves turn b r :
  turn_body turn b = Ok r ->
  battle_evolves b (pass_battle r)
  /\ (pass_lines r = []
      \/ exists a d l, pass_lines r = LTurn turn a d :: l /\ Forall phase_line l)
  /\ (forall b' l, r = Completed b' l ->
      l <> []
      /\ (battle_no_heal b ->
          team_hp (team_a b') <= team_hp (team_a b) - 1
          /\ team_hp (team_b b') <= team_hp (team_b b) - 1
          /\ 1 <= team_hp (team_a b) /\ 2 <= team_hp (team_b b))).
Proof.
  unfold turn_body. intros H.
  destruct (active (team_a b)) as [[i a]|] eqn:Ha;
    [destruct (active (team_b b)) as [[j d]|] eqn:Hd|].
  2,3: injection H as <-; split_and!; [reflexivity | by left | done].
  apply bind_Ok in H as ([[ta1 tb1] l1] & H1 & H). cbn beta iota in H.
  pose proof (team_hp_active _ _ _ Ha) as HpA.
  apply active_Some in Ha as [Hia Hpa]. apply active_Some in Hd as [Hjd Hpd].
  apply attack_phase_evolves in H1 as (HA1 & HB1 & Hl1 & Hs1); [|done..].
  destruct (active ta1) as [[i' a']|] eqn:Ha';
    [destruct (active tb1) as [[j' d']|] eqn:Hd'|].
  2,3: injection H as <-; split_and!;
    [by split | right; by eexists _, _, _ | done].
  apply bind_Ok in H as ([[tb2 ta2] l2] & H2 & H). injection H as <-.
  pose proof (team_hp_active _ _ _ Hd') as HpB1.
  apply active_Some in Ha' as [Hia' Hpa']. apply active_Some in Hd' as [Hjd' Hpd'].
  apply attack_phase_evolves in H2 as (HB2 & HA2 & Hl2 & Hs2); [|done..].
  split_and!.
  - split; by etrans.
  - right. eexists _, _, _. split; [reflexivity|]. by apply Forall_app.
  - intros b' l [= <- <-]. split; [done|]. intros [HnA HnB]. cbn [team_a team_b].
    pose proof (team_evolves_no_heal _ _ HA1 HnA) as HnA1.
    pose proof (team_evolves_no_heal _ _ HB1 HnB) as HnB1.
    pose proof (team_evolves_hp _ _ HA1 HnA).
    pose proof (team_evolves_hp _ _ HB2 HnB1).
    specialize (Hs1 HnB). specialize (Hs2 HnA1). lia.
Qed.

(** ** The loop *)

(** Fuel: from turn [turn], [1001 - turn] passes are enough. *)
Lemma loop_total fuel : forall turn b logs,
  1 <= turn <= 1000 -> 1001 - turn <= Z.of_nat fuel ->
  exists r, loop fuel turn b logs = Some r.
Proof.
  induction fuel as [|fuel IH]; intros turn b logs H1 Hf; [lia|].
  cbn [loop]. destruct (turn_body turn b) as [[b' l|b' l]|e]; eauto.
  case_decide; eauto. apply IH; lia.
Qed.

Lemma turn_numbers_phase l : Forall phase_line l -> turn_numbers l = [].
Proof.
  unfold turn_numbers. induction 1 as [|x l Hx _ IH]; [done|].
  cbn. rewrite IH. by destruct x.
Qed.

Lemma turn_numbers_app l1 l2 :
  turn_numbers (l1 ++ l2) = turn_numbers l1 ++ turn_numbers l2.
Proof. apply omap_app. Qed.

Lemma pass_lines_numbers turn l :
  l = [] \/ (exists a d l', l = LTurn turn a d :: l' /\ Forall phase_line l') ->
  Forall body_line l
  /\ (turn_numbers l = [] \/ turn_numbers l = [turn]).
Proof.
  intros [-> | (a & d & l' & -> & Hl)]; [by split; [constructor | left]|].
  split.
  - constructor; [done|]. eapply Forall_impl; [done | apply phase_line_body].
  - right. change (turn_numbers (LTurn turn a d :: l'))
      with (turn :: turn_numbers l'). by rewrite turn_numbers_phase.
Qed.

(** What the loop appends: body lines whose turn headers are numbered from
    [turn] to 1000 at most, one per pass, followed by the turn-limit line
    when the cap is hit; and the teams evolve. *)
Lemma loop_evolves fuel : forall turn b logs b' logs',
  1 <= turn <= 1000 ->
  loop fuel turn b logs = Some (Ok (b', logs')) ->
  battle_evolves b b'
  /\ exists new,
      Forall body_line new
      /\ (logs' = logs ++ new \/ logs' = logs ++ new ++ [LTurnLimit])
      /\ Forall (fun t => turn <= t <= 1000) (turn_numbers new)
      /\ Z.of_nat (length (turn_numbers new)) <= 1001 - turn.
Proof.
  induction fuel as [|fuel IH]; intros turn b logs b' logs' Ht H; [done|].
  cbn [loop] in H. destruct (turn_body turn b) as [[b1 l|b1 l]|e] eqn:Hb; [| |done].
  - injection H as <- <-.
    apply turn_body_evolves in Hb as (He & Hl & _). cbn in He, Hl.
    apply (pass_lines_numbers turn) in Hl as [Hl Hn].
    split; [done|]. exists l. split_and!; auto.
    + destruct Hn as [-> | ->]; repeat constructor; lia.
    + destruct Hn as [-> | ->]; cbn; lia.
  - apply turn_body_evolves in Hb as (He & Hl & _). cbn in He, Hl.
    apply (pass_lines_numbers turn) in Hl as [Hl Hn].
    case_decide as Hcap.
    + injection H as <- <-. split; [done|]. exists l. split_and!; auto.
      * destruct Hn as [-> | ->]; repeat constructor; lia.
      * destruct Hn as [-> | ->]; cbn; lia.
    + apply IH in H as (He' & new & Hnew & Hlogs & Hnum & Hlen); [|lia].
      split; [by etrans|]. exists (l ++ new). split_and!.
      * by apply Forall_app.
      * rewrite <- !(assoc_L (++)) in Hlogs. by rewrite <- (assoc_L (++)).
      * rewrite turn_numbers_app. apply Forall_app. split.
        -- destruct Hn as [-> | ->]; repeat constructor; lia.
        -- eapply Forall_impl; [exact Hnum|]. cbn. lia.
      * rewrite turn_numbers_app, length_app.
        destruct Hn as [-> | ->]; cbn [length]; lia.
Qed.

(** Without heal entries the cap is not hit from turn [turn] unless team A
    holds at least [1001 - turn] HP and team B at least [1002 - turn]. *)
Lemma loop_no_limit fuel : forall turn b logs b' logs',
  1 <= turn <= 1000 ->
  battle_no_heal b ->
  team_hp (team_a b) < 1001 - turn \/ team_hp (team_b b) < 1002 - turn ->
  loop fuel turn b logs = Some (Ok (b', logs')) ->
  exists new, logs' = logs ++ new /\ Forall body_line new.
Proof.
  induction fuel as [|fuel IH]; intros turn b logs b' logs' Ht Hn Hhp H; [done|].
  cbn [loop] in H. destruct (turn_body turn b) as [[b1 l|b1 l]|e] eqn:Hb; [| |done].
  - injection H as <- <-.
    apply turn_body_evolves in Hb as (_ & Hl & _).
    apply (pass_lines_numbers turn) in Hl as [Hl _]. by exists l.
  - apply turn_body_evolves in Hb as (He & Hl & Hc). cbn in He, Hl.
    apply (pass_lines_numbers turn) in Hl as [Hl _].
    destruct (Hc _ _ eq_refl) as (_ & Hdrop). specialize (Hdrop Hn).
    case_decide as Hcap; [lia|].
    apply IH in H as (new & -> & Hnew);
      [| lia | by eapply battle_evolves_no_heal | lia].
    exists (l ++ new). split; [by rewrite (assoc_L (++)) | by apply Forall_app].
Qed.

(** ** The whole run *)

Lemma enter_phase_evolves b b1 l1 :
  enter_phase b = Ok (b1, l1) -> battle_evolves b b1 /\ Forall phase_line l1.
Proof.
  unfold enter_phase. intros H.
  destruct (active (team_a b)) as [[i a]|] eqn:Ha;
    destruct (active (team_b b)) as [[j d]|] eqn:Hd;
    try apply active_Some in Ha as [Hia _];
    try apply active_Some in Hd as [Hjd _].
  - apply bind_Ok in H as ([[a1 od1] l] & H1 & H).
    apply apply_abilities_evolves in H1 as (d1 & -> & Ha1 & Hd1 & _ & _ & Hl1).
    cbn beta iota in H. cbn [default] in H.
    apply bind_Ok in H as ([[d2 oa2] l2] & H2 & H).
    apply apply_abilities_evolves in H2 as (a2 & -> & Hd2 & Ha2 & _ & _ & Hl2).
    cbn in H. injection H as <- <-. split; [split; cbn|by apply Forall_app].
    + eapply insert_evolves; [done | by etrans].
    + eapply insert_evolves; [done | by etrans].
  - apply bind_Ok in H as ([[a1 od1] l] & H1 & H).
    apply apply_abilities_evolves_alone in H1 as [Ha1 Hl1].
    cbn in H. injection H as <- <-. split; [split; cbn|done].
    + by eapply insert_evolves.
    + reflexivity.
  - apply bind_Ok in H as ([[d1 oa1] l] & H1 & H).
    apply apply_abilities_evolves_alone in H1 as [Hd1 Hl1].
    cbn in H. injection H as <- <-. split; [split; cbn|done].
    + reflexivity.
    + by eapply insert_evolves.
  - injection H as <- <-. split; [reflexivity | constructor].
Qed.

(** ** The exceptions of a run *)

Section raises.

(** [E] holds of the conversion errors and of what the conversion of an
    ability value raises, for the entities that [Q] admits. *)
Context (Q : BallInstance -> Prop) (E : exn -> Prop).
Hypothesis E_conversion : forall x, conversion_error x -> E x.
Hypothesis E_value : forall inst when e v x,
  Q inst -> e ∈ hook_entries inst when -> e_value e = Some v ->
  py_float v = Raise x \/ py_int v = Raise x -> E x.

Lemma hook_raises when a t x :
  Q (instance a) -> apply_abilities when a t = Raise x -> E x.
Proof.
  intros Hq [?|(e & v & ? & ? & ?)]%apply_abilities_raises; [auto|].
  by eapply E_value.
Qed.

Lemma evolves_admits p p' : evolves p p' -> Q (instance p) -> Q (instance p').
Proof. intros (-> & _). done. Qed.

Lemma team_evolves_admits t t' :
  Forall2 evolves t t' -> team_admits Q t -> team_admits Q t'.
Proof.
  unfold team_admits. induction 1 as [|p p' t t' Hp _ IH]; intros Hn.
  - constructor.
  - apply Forall_cons in Hn as [? ?].
    constructor; [by eapply evolves_admits | auto].
Qed.

Lemma exchange_raises att def x :
  Q (instance att) -> Q (instance def) -> exchange att def = Raise x -> E x.
Proof.
  intros Qa Qd H. unfold exchange in H.
  apply bind_Raise in H as [H | ([[att1 odef1] l1] & H1 & H)];
    [by eapply hook_raises; [|exact H]|].
  destruct (apply_abilities_evolves _ _ _ _ _ _ H1) as (def1 & -> & Ha & Hd & _).
  cbn beta iota in H. change (default def (Some def1)) with def1 in H.
  apply bind_Raise in H as [H | (dmg & _ & H)].
  { apply E_conversion. unfold base_damage in H. raise_inv H. }
  apply bind_Raise in H as [H | ([[def2 oatt2] l2] & _ & H)].
  { eapply hook_raises; [|exact H]. by eapply evolves_admits. }
  cbn beta iota in H.
  apply bind_Raise in H as [H | ([dmg' l3] & _ & H)].
  { apply E_conversion. unfold shield_block in H.
    destruct (PyFloat.truthy _); raise_inv H. }
  cbn in H. discriminate.
Qed.

Lemma defeat_block_raises i j att def att_team def_team x :
  Q (instance att) -> Q (instance def) -> team_admits Q def_team ->
  defeat_block i j att def att_team def_team = Raise x -> E x.
Proof.
  unfold defeat_block. intros Qa Qd Qt H. case_decide; [|done].
  apply bind_Raise in H as [H | ([[def1 oatt1] l1] & H1 & H)];
    [by eapply hook_raises; [|exact H]|].
  destruct (apply_abilities_evolves _ _ _ _ _ _ H1) as (att1 & -> & Hd & Ha & _).
  cbn beta iota in H. change (default att (Some att1)) with att1 in H.
  destruct (active _) as [[k nxt]|] eqn:Hact; [|done].
  apply bind_Raise in H as [H | ([[nxt1 oatt2] l2] & _ & H)]; [|done].
  eapply hook_raises; [|exact H].
  apply active_Some in Hact as [Hk _].
  eapply (Forall_lookup_1 (fun p => Q (instance p))); [|exact Hk].
  apply Forall_insert; [done | by eapply evolves_admits].
Qed.

Lemma attack_phase_raises i j att def att_team def_team x :
  Q (instance att) -> Q (instance def) -> team_admits Q def_team ->
  attack_phase i j att def att_team def_team = Raise x -> E x.
Proof.
  unfold attack_phase. intros Qa Qd Qt H.
  apply bind_Raise in H as [H | ([[att1 def1] l1] & H1 & H)];
    [by eapply exchange_raises; [| |exact H]|].
  apply exchange_evolves in H1 as (Ha & Hd & _).
  apply bind_Raise in H as [H | ([[ta td] l2] & _ & H)]; [|done].
  eapply defeat_block_raises; [| | |exact H]; eauto using evolves_admits.
Qed.

Lemma turn_body_raises turn b x :
  team_admits Q (team_a b) -> team_admits Q (team_b b) ->
  turn_body turn b = Raise x -> E x.
Proof.
  unfold turn_body. intros Qa Qb H.
  destruct (active (team_a b)) as [[i a]|] eqn:Ha; [|done].
  destruct (active (team_b b)) as [[j d]|] eqn:Hd; [|done].
  apply active_Some in Ha as [Ha Hpa]. apply active_Some in Hd as [Hd Hpd].
  pose proof (Forall_lookup_1 _ _ _ _ Qa Ha) as Qa0.
  pose proof (Forall_lookup_1 _ _ _ _ Qb Hd) as Qd0.
  apply bind_Raise in H as [H | ([[ta1 tb1] l1] & H1 & H)];
    [by eapply attack_phase_raises; [| | |exact H]|]. cbn beta iota in H.
  apply attack_phase_evolves in H1 as (Hta & Htb & _); [|done..].
  pose proof (team_evolves_admits _ _ Hta Qa) as Qa1.
  pose proof (team_evolves_admits _ _ Htb Qb) as Qb1.
  destruct (active ta1) as [[i' a']|] eqn:Ha'; [|done].
  destruct (active tb1) as [[j' d']|] eqn:Hd'; [|done].
  apply active_Some in Ha' as [Ha' _]. apply active_Some in Hd' as [Hd' _].
  apply bind_Raise in H as [H | ([[tb2 ta2] l2] & _ & H)]; [|done].
  eapply attack_phase_raises; [| | |exact H].
  - exact (Forall_lookup_1 _ _ _ _ Qb1 Hd').
  - exact (Forall_lookup_1 _ _ _ _ Qa1 Ha').
  - exact Qa1.
Qed.

Lemma loop_raises fuel : forall turn b logs x,
  team_admits Q (team_a b) -> team_admits Q (team_b b) ->
  loop fuel turn b logs = Some (Raise x) -> E x.
Proof.
  induction fuel as [|fuel IH]; intros turn b logs x Qa Qb H; [done|].
  cbn [loop] in H. destruct (turn_body turn b) as [[b' l|b' l]|e] eqn:Hb.
  - done.
  - case_decide; [done|].
    apply turn_body_evolves in Hb as ([Hta Htb] & _). cbn [pass_battle] in *.
    eapply IH; [| |exact H]; by eapply team_evolves_admits.
  - injection H as ->. by eapply turn_body_raises; [| |exact Hb].
Qed.

Lemma enter_phase_raises b x :
  team_admits Q (team_a b) -> team_admits Q (team_b b) ->
  enter_phase b = Raise x -> E x.
Proof.
  unfold enter_phase. intros Qa Qb H.
  destruct (active (team_a b)) as [[i a]|] eqn:Ha;
    destruct (active (team_b b)) as [[j d]|] eqn:Hd; [| | |done].
  - apply active_Some in Ha as [Ha _]. apply active_Some in Hd as [Hd _].
    apply bind_Raise in H as [H | ([[a1 od1] l] & H1 & H)];
      [eapply hook_raises; [|exact H]; exact (Forall_lookup_1 _ _ _ _ Qa Ha)|].
    destruct (apply_abilities_evolves _ _ _ _ _ _ H1)
      as (d1 & -> & _ & Hd1 & _).
    cbn beta iota in H. change (default d (Some d1)) with d1 in H.
    apply bind_Raise in H as [H | ([[d2 oa2] l2] & _ & H)]; [|done].
    eapply hook_raises; [|exact H]. eapply evolves_admits; [exact Hd1|].
    exact (Forall_lookup_1 _ _ _ _ Qb Hd).
  - apply active_Some in Ha as [Ha _].
    apply bind_Raise in H as [H | ([[a1 od1] l] & _ & H)]; [|done].
    eapply hook_raises; [|exact H]. exact (Forall_lookup_1 _ _ _ _ Qa Ha).
  - apply active_Some in Hd as [Hd _].
    apply bind_Raise in H as [H | ([[a1 od1] l] & _ & H)]; [|done].
    eapply hook_raises; [|exact H]. exact (Forall_lookup_1 _ _ _ _ Qb Hd).
Qed.

Lemma run_raises b x :
  team_admits Q (team_a b) -> team_admits Q (team_b b) ->
  run b = Some (Raise x) -> E x.
Proof.
  unfold run. intros Qa Qb H.
  destruct (enter_phase b) as [[b1 l1]|e] eqn:He.
  - destruct (loop 1000 1 b1 l1) as [[[b2 l2]|e]|] eqn:Hl; [done| |done].
    injection H as ->. apply enter_phase_evolves in He as ([Hta Htb] & _).
    eapply loop_raises; [| |exact Hl]; by eapply team_evolves_admits.
  - injection H as ->. by eapply enter_phase_raises; [| |exact He].
Qed.

End raises.

(** Whatever [run] raises is raised by a conversion. *)
Lemma run_raises_any b x :
  run b = Some (Raise x) -> conversion_error x \/ value_error x.
Proof.
  apply (run_raises (fun _ => True)
           (fun x => conversion_error x \/ value_error x)).
  - intros y ?. by left.
  - intros inst when e v y _ _ _ H. by apply (value_raises v).
  - by apply Forall_forall.
  - by apply Forall_forall.
Qed.

(** With numbers as ability values only the conversions of the computed
    numbers are left. *)
Lemma run_raises_numeric b x :
  team_admits numeric_entity (team_a b) ->
  team_admits numeric_entity (team_b b) ->
  run b = Some (Raise x) -> conversion_error x.
Proof.
  apply (run_raises numeric_entity conversion_error); [done|].
  intros inst when e v y Hq Hin Hv H.
  specialize (Hq when). rewrite Forall_forall in Hq.
  specialize (Hq e Hin v Hv).
  destruct H; [by eapply py_float_numeric | by eapply py_int_numeric].
Qed.

Lemma make_participants_admit Q team :
  Forall Q (take 3 team) -> team_admits Q (make_participants team).
Proof.
  intros H. unfold team_admits, make_participants.
  apply Forall_fmap. by eapply Forall_impl; [exact H|].
Qed.

Lemma verdict_is_verdict b : is_verdict (verdict b).
Proof.
  unfold verdict, is_verdict.
  destruct (any_alive (team_a b)), (any_alive (team_b b)); cbn; auto.
Qed.

(** [run] always comes back: the fuel of 1000 passes is never short. *)
Lemma run_total b : exists r, run b = Some r.
Proof.
  unfold run. destruct (enter_phase b) as [[b1 l1]|e]; [|eauto].
  destruct (loop_total 1000 1 b1 l1) as [[[b2 l2]|e] ->]; [lia | lia | eauto..].
Qed.

(** The shape of a returned transcript. *)
Lemma run_evolves b b' logs :
  run b = Some (Ok (b', logs)) ->
  battle_evolves b b'
  /\ exists body,
      Forall body_line body
      /\ (logs = body ++ [verdict b']
          \/ logs = body ++ [LTurnLimit; verdict b'])
      /\ Forall (fun t => 1 <= t <= 1000) (turn_numbers body)
      /\ Z.of_nat (length (turn_numbers body)) <= 1000.
Proof.
  unfold run. intros H.
  destruct (enter_phase b) as [[b1 l1]|e] eqn:He; [|done].
  destruct (loop 1000 1 b1 l1) as [[[b2 l2]|e]|] eqn:Hl; [|done..].
  injection H as <- <-.
  apply enter_phase_evolves in He as [He Hl1].
  apply loop_evolves in Hl as (Hev & new & Hnew & Hlogs & Hnum & Hlen); [|lia].
  split; [by etrans|]. exists (l1 ++ new). split_and!.
  - apply Forall_app. split; [|done].
    eapply Forall_impl; [done | apply phase_line_body].
  - destruct Hlogs as [-> | ->]; [left | right];
      by rewrite <- ?(assoc_L (++)).
  - by rewrite turn_numbers_app, (turn_numbers_phase l1), app_nil_l.
  - rewrite turn_numbers_app, (turn_numbers_phase l1), app_nil_l by done. lia.
Qed.

Lemma make_participants_hp_ok team : Forall hp_ok (make_participants team).
Proof.
  unfold make_participants. apply Forall_fmap, Forall_forall.
  intros inst _. unfold hp_ok; cbn. split; [lia | done].
Qed.

Lemma make_participants_team_hp team :
  team_hp (make_participants team) = team_health team.
Proof.
  unfold make_participants, team_health.
  induction (take 3 team) as [|inst l IH]; [done|].
  cbn [fmap list_fmap foldr]. rewrite team_hp_cons. cbn. by rewrite <- IH.
Qed.

Lemma make_participants_no_heal team :
  Forall no_heal (take 3 team) -> team_no_heal (make_participants team).
Proof.
  unfold make_participants, team_no_heal. intros H.
  apply Forall_fmap. eapply Forall_impl; [exact H | done].
Qed.

Lemma init_Ok ta tb b :
  TeamBattle_init ta tb = Ok b ->
  b = {| team_a := make_participants ta; team_b := make_participants tb |}.
Proof. destruct ta, tb; cbn; congruence. Qed.

Lemma body_line_not_limit l : Forall body_line l -> LTurnLimit ∉ l.
Proof. rewrite Forall_forall. intros H Hin. by apply H in Hin. Qed.

Lemma existsb_turn_limit logs :
  existsb is_turn_limit logs = true -> LTurnLimit ∈ logs.
Proof.
  intros (x & Hin & Hx)%existsb_exists. destruct x; try done.
  by apply list_elem_of_In.
Qed.

(** ** Battles that cannot raise *)

Lemma bind_ret {A B} (a : A) (k : A -> result B) : mbind k (Ok a) = k a.
Proof. reflexivity. Qed.

Lemma apply_abilities_plain when a t :
  (forall w, hook_entries (instance a) w = []) ->
  apply_abilities when a t = Ok (a, t, []).
Proof.
  intros H. unfold apply_abilities.
  change (default [] (logic_of a !! when)) with (hook_entries (instance a) when).
  by rewrite H.
Qed.

Lemma base_damage_pristine p : pristine p -> exists n, base_damage p = Ok n.
Proof.
  destruct p as [inst mhp hp sh mu fl]. unfold pristine.
  cbn [instance shield_percent extra_damage_multiplier extra_flat_damage].
  intros ([_ [n Hn]] & -> & -> & ->). exists n. exact Hn.
Qed.

Lemma shield_block_zero dmg def :
  shield_percent def = PyFloat.zero -> shield_block dmg def = Ok (dmg, []).
Proof. unfold shield_block. by intros ->. Qed.

Lemma exchange_pristine att def :
  pristine att -> pristine def ->
  exists att' def' l,
    exchange att def = Ok (att', def', l) /\ pristine att' /\ pristine def'.
Proof.
  intros Ha Hd. destruct (base_damage_pristine _ Ha) as [n Hn].
  destruct Ha as ([Hea Hba] & Hsa & Hma & Hfa).
  destruct Hd as ([Hed Hbd] & Hsd & Hmd & Hfd).
  unfold exchange.
  rewrite (apply_abilities_plain _ att _ Hea), bind_ret. cbn beta iota.
  cbn [default]. rewrite Hn, bind_ret.
  rewrite (apply_abilities_plain _ def _ Hed), bind_ret. cbn beta iota.
  cbn [default]. rewrite (shield_block_zero _ _ Hsd), bind_ret. cbn beta iota.
  unfold resolve_attack. cbn beta iota zeta.
  eexists _, _, _. split; [reflexivity|]. split.
  - by split_and!.
  - by split_and!.
Qed.

Lemma defeat_block_pristine i j att def att_team def_team :
  pristine att -> pristine def ->
  Forall pristine att_team -> Forall pristine def_team ->
  exists ta td l,
    defeat_block i j att def att_team def_team = Ok (ta, td, l)
    /\ Forall pristine ta /\ Forall pristine td.
Proof.
  intros Ha Hd HA HD. unfold defeat_block. case_decide.
  - rewrite (apply_abilities_plain _ def _ (proj1 (proj1 Hd))), bind_ret.
    cbn beta iota. cbn [default].
    assert (Forall pristine (<[j:=def]> def_team)) as HD1
      by (by apply Forall_insert).
    destruct (active (<[j:=def]> def_team)) as [[k nxt]|] eqn:Hact.
    + apply active_Some in Hact as [Hk _].
      assert (pristine nxt) as Hn
        by (rewrite Forall_lookup in HD1; by eapply HD1).
      rewrite (apply_abilities_plain _ nxt _ (proj1 (proj1 Hn))), bind_ret.
      cbn beta iota. cbn [default]. eexists _, _, _.
      split; [reflexivity|]. split; by apply Forall_insert.
    + eexists _, _, _. split; [reflexivity|]. split; [by apply Forall_insert|done].
  - eexists _, _, _. split; [reflexivity|]. split; by apply Forall_insert.
Qed.

Lemma attack_phase_pristine i j att def att_team def_team :
  pristine att -> pristine def ->
  Forall pristine att_team -> Forall pristine def_team ->
  exists ta td l,
    attack_phase i j att def att_team def_team = Ok (ta, td, l)
    /\ Forall pristine ta /\ Forall pristine td.
Proof.
  intros Ha Hd HA HD. unfold attack_phase.
  destruct (exchange_pristine _ _ Ha Hd) as (att' & def' & l1 & -> & Ha' & Hd').
  rewrite bind_ret. cbn beta iota.
  destruct (defeat_block_pristine i j _ _ _ _ Ha' Hd' HA HD)
    as (ta & td & l2 & -> & HA' & HD').
  rewrite bind_ret. cbn beta iota. by eexists _, _, _.
Qed.

Lemma active_pristine team i p :
  Forall pristine team -> active team = Some (i, p) -> pristine p.
Proof.
  intros H [Hi _]%active_Some. rewrite Forall_lookup in H. by eapply H.
Qed.

Lemma turn_body_pristine turn b :
  battle_pristine b ->
  exists r, turn_body turn b = Ok r /\ battle_pristine (pass_battle r).
Proof.
  intros [HA HB]. unfold turn_body.
  destruct (active (team_a b)) as [[i a]|] eqn:Ha;
    [destruct (active (team_b b)) as [[j d]|] eqn:Hd|].
  2,3: by eexists.
  destruct (attack_phase_pristine i j a d (team_a b) (team_b b))
    as (ta1 & tb1 & l1 & -> & HA1 & HB1); eauto using active_pristine.
  rewrite bind_ret. cbn beta iota.
  destruct (active ta1) as [[i' a']|] eqn:Ha';
    [destruct (active tb1) as [[j' d']|] eqn:Hd'|].
  2,3: by eexists.
  destruct (attack_phase_pristine j' i' d' a' tb1 ta1)
    as (tb2 & ta2 & l2 & -> & HB2 & HA2); eauto using active_pristine.
  rewrite bind_ret. cbn beta iota. by eexists.
Qed.

Lemma loop_pristine fuel : forall turn b logs,
  1 <= turn <= 1000 -> 1001 - turn <= Z.of_nat fuel ->
  battle_pristine b ->
  exists b' logs', loop fuel turn b logs = Some (Ok (b', logs')).
Proof.
  induction fuel as [|fuel IH]; intros turn b logs Ht Hf Hp; [lia|].
  cbn [loop]. destruct (turn_body_pristine turn b Hp) as ([b1 l|b1 l] & -> & Hp1).
  - by eexists _, _.
  - case_decide; [by eexists _, _|]. apply IH; [lia | lia | done].
Qed.

Lemma enter_phase_pristine b :
  battle_pristine b ->
  exists b1 l1, enter_phase b = Ok (b1, l1) /\ battle_pristine b1.
Proof.
  intros [HA HB]. unfold enter_phase.
  destruct (active (team_a b)) as [[i a]|] eqn:Ha;
    destruct (active (team_b b)) as [[j d]|] eqn:Hd;
    try pose proof (active_pristine _ _ _ HA Ha) as Hpa;
    try pose proof (active_pristine _ _ _ HB Hd) as Hpd.
  - rewrite (apply_abilities_plain _ a _ (proj1 (proj1 Hpa))), bind_ret.
    cbn beta iota. cbn [default].
    rewrite (apply_abilities_plain _ d _ (proj1 (proj1 Hpd))), bind_ret.
    cbn beta iota. cbn [default]. eexists _, _. split; [reflexivity|].
    split; by apply Forall_insert.
  - rewrite (apply_abilities_plain _ a _ (proj1 (proj1 Hpa))), bind_ret.
    cbn beta iota. eexists _, _. split; [reflexivity|].
    split; [by apply Forall_insert | done].
  - rewrite (apply_abilities_plain _ d _ (proj1 (proj1 Hpd))), bind_ret.
    cbn beta iota. eexists _, _. split; [reflexivity|].
    split; [done | by apply Forall_insert].
  - by eexists _, _.
Qed.

Lemma run_pristine b :
  battle_pristine b -> exists b' logs, run b = Some (Ok (b', logs)).
Proof.
  intros Hp. unfold run.
  destruct (enter_phase_pristine b Hp) as (b1 & l1 & -> & Hp1).
  destruct (loop_pristine 1000 1 b1 l1) as (b2 & l2 & ->); [lia | lia | done |].
  by eexists _, _.
Qed.

Lemma make_participants_pristine team :
  Forall plain (take 3 team) -> Forall pristine (make_participants team).
Proof.
  unfold make_participants. intros H. apply Forall_fmap.
  eapply Forall_impl; [exact H|]. intros inst Hp. by split_and!.
Qed.

(** ** Termination and verdict *)


Lemma turn_numbers_tail l :
  is_verdict l -> turn_numbers [l] = [] /\ turn_numbers [LTurnLimit; l] = [].
Proof. by intros [-> | [-> | ->]]. Qed.


Lemma plain_a_is_plain : plain plain_a.
Proof.
  split; [intros w; unfold hook_entries;
    by change (default [] ((∅ : gmap string (list entry)) !! w) = [])|].
  eexists. vm_compute. reflexivity.
Qed.

Lemma plain_b_is_plain : plain plain_b.
Proof.
  split; [intros w; unfold hook_entries;
    by change (default [] ((∅ : gmap string (list entry)) !! w) = [])|].
  eexists. vm_compute. reflexivity.
Qed.


(** ** The turn cap *)

(** C5: the code at the failing input.  Team A is one entity of health
    1000 and attack 1, team B one entity of health 2000 and attack 1, no
    abilities.  Team A's entity falls to the last hit of turn 1000, the
    counter passes the cap, and the transcript ends with
    "Turn limit reached, ending in a draw." followed by "Team B wins!". *)
Theorem turn_limit_then_team_b_wins :
  exists b logs,
    battle [wall_1000] [wall_2000] = Some (Ok (b, logs))
    /\ ending 2 logs = [LTurnLimit; LTeamBWins]
    /\ verdict b = LTeamBWins
    /\ any_alive (team_a b) = false /\ any_alive (team_b b) = true
    /\ length (turn_numbers logs) = 1000%nat.
Proof.
  assert (match battle [wall_1000] [wall_2000] with
          | Some (Ok (b, logs)) =>
              ending 2 logs = [LTurnLimit; LTeamBWins]
              /\ verdict b = LTeamBWins
              /\ any_alive (team_a b) = false /\ any_alive (team_b b) = true
              /\ length (turn_numbers logs) = 1000%nat
          | _ => False
          end) as H by (vm_compute; by split_and!).
  destruct (battle [wall_1000] [wall_2000]) as [[[b logs]|]|]; [|done..].
  by exists b, logs.
Qed.

(** C6, as stated, fails: two entities of health 2000 and attack 1 still
    stand after 1000 turns, and the transcript holds the turn-limit
    line. *)
Lemma cap_never_reached_counterexample : ~ cap_never_reached.
Proof.
  intros Hc.
  assert (match battle [wall_2000] [wall_2000] with
          | Some (Ok (b, logs)) => existsb is_turn_limit logs = true
          | _ => False
          end) as H by (vm_compute; reflexivity).
  destruct (battle [wall_2000] [wall_2000]) as [[[b logs]|]|] eqn:Hb; [|done..].
  apply existsb_turn_limit in H. revert H.
  assert (0 < health wall_2000) as Hpos by (vm_compute; reflexivity).
  apply (Hc [wall_2000] [wall_2000] b logs);
    [discriminate | discriminate | by constructor | by constructor | exact Hb].
Qed.

(** C6, amended: the cap is a live guard.  When no entity of the two teams
    has a heal entry, every completed turn costs each team at least 1 HP,
    so the turn-limit line appears only if the entities of team A total at
    least 1000 health and those of team B at least 1001; below either
    bound the loop exits by defeat before the cap. *)
Theorem cap_not_reached_without_heals ta tb b logs :
  Forall no_heal (take 3 ta) -> Forall no_heal (take 3 tb) ->
  team_health ta < 1000 \/ team_health tb < 1001 ->
  battle ta tb = Some (Ok (b, logs)) ->
  LTurnLimit ∉ logs.
Proof.
  intros Hna Hnb Hhp H. unfold battle in H.
  destruct (TeamBattle_init ta tb) as [b0|e] eqn:Hi; [|done].
  apply init_Ok in Hi as ->. unfold run in H.
  destruct (enter_phase _) as [[b1 l1]|e] eqn:He; [|done].
  destruct (loop 1000 1 b1 l1) as [[[b2 l2]|e]|] eqn:Hl; [|done..].
  injection H as <- <-.
  apply enter_phase_evolves in He as [[HeA HeB] Hl1]. cbn in HeA, HeB.
  pose proof (make_participants_no_heal _ Hna) as HnA.
  pose proof (make_participants_no_heal _ Hnb) as HnB.
  pose proof (team_evolves_hp _ _ HeA HnA) as HhA.
  pose proof (team_evolves_hp _ _ HeB HnB) as HhB.
  rewrite make_participants_team_hp in HhA, HhB.
  apply loop_no_limit in Hl as (new & -> & Hnew).
  - intros [[Hin | Hin]%elem_of_app | Hin]%elem_of_app.
    + revert Hin. apply body_line_not_limit.
      eapply Forall_impl; [done | apply phase_line_body].
    + revert Hin. by apply body_line_not_limit.
    + apply list_elem_of_singleton in Hin.
      by destruct (verdict_is_verdict b2) as [Hv | [Hv | Hv]];
        rewrite Hv in Hin.
  - lia.
  - split; by eapply team_evolves_no_heal.
  - lia.
Qed.

Lemma cap_not_reached_without_heals_witness :
  LTurnLimit ∉
    [LTurn 1 "#1 A" "#2 B"; LDeals "#1 A" 5 "#2 B" 5; LDeals "#2 B" 1 "#1 A" 19;
     LTurn 2 "#1 A" "#2 B"; LDeals "#1 A" 5 "#2 B" 0; LDefeated "#2 B";
     LTeamAWins].
Proof.
  apply (cap_not_reached_without_heals [plain_a] [plain_b]
           {| team_a := [set_current_hp (make_participant plain_a) 19];
              team_b := [set_current_hp (make_participant plain_b) 0] |}).
  - repeat constructor.
  - repeat constructor.
  - left. vm_compute. reflexivity.
  - vm_compute. reflexivity.
Defined.

(** ** The HP bound *)

(** C10: [current_hp] never exceeds [max_hp], which is the health of the
    entity.  A participant is built with both equal to that health; an
    ability entry keeps [max_hp], keeps a bounded HP bounded (the heal
    clamps at [max_hp]), changes the actor's HP only if it is a heal and
    never the target's; the resolution of an attack lowers the defender's
    HP and leaves the attacker's; hence every pass of the loop keeps the
    bound on both teams, and it holds on the battle that [run] leaves. *)
Theorem hp_never_exceeds_max_hp :
  (forall inst,
      hp_ok (make_participant inst)
      /\ current_hp (make_participant inst) = health inst)
  /\ (forall actor target e a' t' l,
      apply_entry actor target e = Ok (a', t', l) ->
      max_hp a' = max_hp actor
      /\ (current_hp actor <= max_hp actor -> current_hp a' <= max_hp a')
      /\ (e_type e <> Some "heal"%string -> current_hp a' = current_hp actor)
      /\ (forall tg, target = Some tg ->
          exists tg', t' = Some tg'
            /\ current_hp tg' = current_hp tg /\ max_hp tg' = max_hp tg))
  /\ (forall dmg att def att' def' l,
      resolve_attack dmg att def = (att', def', l) ->
      current_hp att' = current_hp att /\ current_hp def' < current_hp def
      /\ max_hp att' = max_hp att /\ max_hp def' = max_hp def)
  /\ (forall turn b r,
      battle_hp_ok b -> turn_body turn b = Ok r -> battle_hp_ok (pass_battle r))
  /\ (forall ta tb b logs,
      battle ta tb = Some (Ok (b, logs)) -> battle_hp_ok b).
Proof.
  split_and!.
  - intros inst. unfold hp_ok; cbn. split_and!; [lia | done | done].
  - intros actor target e a' t' l H.
    destruct (apply_entry_frame _ _ _ _ _ _ H) as (_ & Hm & _ & Ht).
    pose proof (apply_entry_heals _ _ _ _ _ _ H) as Hh.
    cbn in Hm, Ht, Hh. split_and!; [done | | |].
    + intros Hb. by apply Hh.
    + intros Hne. by apply (apply_entry_keeps_hp _ _ _ _ _ _ Hne H).
    + intros tg ->. destruct t' as [tg'|]; [|done].
      exists tg'. by rewrite Ht.
  - intros dmg att def att' def' l [= <- <- <-]. cbn. split_and!; (done || lia).
  - intros turn b r Hok H. apply turn_body_evolves in H as (He & _).
    by eapply battle_evolves_hp_ok.
  - intros ta tb b logs H. unfold battle in H.
    destruct (TeamBattle_init ta tb) as [b0|e] eqn:Hi; [|done].
    apply init_Ok in Hi as ->. apply run_evolves in H as (He & _).
    eapply battle_evolves_hp_ok; [exact He|].
    split; apply make_participants_hp_ok.
Qed.

Lemma hp_never_exceeds_max_hp_witness :
  battle_hp_ok
    {| team_a := [set_current_hp (make_participant healer) 4];
       team_b := [set_current_hp (make_participant dummy) (-2)] |}.
Proof.
  eapply (proj2 (proj2 (proj2 (proj2 hp_never_exceeds_max_hp)))
            [healer] [dummy]).
  vm_compute. reflexivity.
Defined.

(** * Further properties of the engine *)

(** ** Values that do not convert *)

Lemma apply_entry_conversion_fails actor target e x :
  conversion_fails e x -> apply_entry actor target e = Raise x.
Proof.
  intros (t & v & Ht & Hv & [[Hin Hf] | [-> Hi]]);
    unfold apply_entry; rewrite Ht, Hv;
    change (default _ (Some v)) with v.
  - unfold float_types in Hin.
    repeat (apply elem_of_cons in Hin as [-> | Hin]);
      [| | |by apply elem_of_nil in Hin];
      repeat (case_decide; [try congruence|]); try congruence;
      by rewrite Hf.
  - repeat (case_decide; [try congruence|]); try congruence.
    by rewrite Hi.
Qed.

Lemma active_head p team :
  0 < current_hp p -> active (p :: team) = Some (0%nat, p).
Proof. intros H. unfold active. cbn [list_find]. by rewrite decide_True. Qed.

(** X1: nothing stands between an ability value and its conversion.  When
    the first [on_enter] entry of the first entity of team A (an entity of
    positive health) has a supported type and a value on which the
    conversion of that type raises ([float()] for [damage_multiplier],
    [heal] and [shield], with or without a target; [int()] for
    [extra_damage]), the entry is one that [clean_capacity_logic] lets
    through, and every battle of that team raises that exception before
    its first turn. *)
Theorem unconvertible_value_aborts inst rest tb e es x :
  tb <> [] -> 0 < health inst ->
  hook_entries inst "on_enter" = e :: es ->
  conversion_fails e x ->
  well_formed_entry (json_of_entry e)
  /\ battle (inst :: rest) tb = Some (Raise x).
Proof.
  intros Htb Hhp Hhook Hc. split.
  - destruct Hc as (t & v & Ht & Hv & Hty).
    exists [("type"%string, JStr t); ("value"%string, json_of_value v)], t.
    split_and!.
    + unfold json_of_entry. by rewrite Ht, Hv.
    + reflexivity.
    + unfold allowed_types, float_types in *.
      destruct Hty as [[Hin _] | [-> _]].
      * repeat (apply elem_of_cons in Hin as [-> | Hin]);
          [| | |by apply elem_of_nil in Hin];
          repeat first [by left | right].
      * right. by left.
    + by eexists.
  - assert (forall t, apply_abilities "on_enter" (make_participant inst) t
                      = Raise x) as Hh.
    { intros t. unfold apply_abilities.
      change (default [] (logic_of (make_participant inst) !! "on_enter"%string))
        with (hook_entries inst "on_enter").
      rewrite Hhook. cbn [apply_entries].
      by rewrite (apply_entry_conversion_fails _ _ _ _ Hc). }
    destruct tb as [|i2 tb']; [done|].
    unfold battle. cbn [TeamBattle_init]. unfold run, enter_phase.
    cbn [team_a team_b]. unfold make_participants at 1.
    cbn [take fmap list_fmap]. rewrite active_head by done.
    destruct (active _) as [[j d]|]; by rewrite Hh.
Qed.

Lemma unconvertible_value_aborts_witness :
  well_formed_entry (json_of_entry (ability "heal" VNone))
  /\ battle [null_healer] [plain_b]
     = Some (Raise (float_type_error "NoneType")).
Proof.
  apply (unconvertible_value_aborts null_healer [] [plain_b]
           (ability "heal" VNone) []).
  - discriminate.
  - vm_compute. reflexivity.
  - vm_compute. reflexivity.
  - exists "heal"%string, VNone. split_and!; [done..|].
    left. split; [|done]. unfold float_types. right. by left.
Defined.

(** ** Truncation *)

(** X2: entities beyond the third of a team play no part: a battle is the
    battle of the first three entities of each team. *)
Theorem battle_of_first_three ta tb :
  battle ta tb = battle (take 3 ta) (take 3 tb).
Proof.
  unfold battle, TeamBattle_init.
  assert (forall t, make_participants (take 3 t) = make_participants t) as Hm.
  { intros t. unfold make_participants. by rewrite take_take. }
  destruct ta as [|a ta], tb as [|d tb]; try done.
  by rewrite !Hm.
Qed.

(** ** The active participant *)

Lemma any_alive_false team :
  any_alive team = false <-> Forall (fun p => ~ 0 < current_hp p) team.
Proof.
  unfold any_alive. induction team as [|p team IH]; [by split; [constructor|]|].
  cbn [existsb]. rewrite orb_false_iff, IH, Forall_cons, Z.ltb_ge. split.
  - intros [? ?]. split; [lia | done].
  - intros [? ?]. split; [lia | done].
Qed.

Lemma active_None team : active team = None <-> any_alive team = false.
Proof. rewrite any_alive_false. apply list_find_None. Qed.

(** X4: [_active] returns the first participant of the list with positive
    HP, skipping exactly the defeated ones before it, and returns nothing
    exactly when [any(p.current_hp > 0 ...)] is false: the [break] tests of
    the loop and the alive tests of the verdict agree. *)
Theorem active_is_first_alive team :
  (active team = None <-> any_alive team = false)
  /\ (forall i p,
      active team = Some (i, p) <->
      team !! i = Some p /\ 0 < current_hp p
      /\ forall j q, team !! j = Some q -> (j < i)%nat -> current_hp q <= 0).
Proof.
  split.
  - apply active_None.
  - intros i p. unfold active. rewrite list_find_Some. split.
    + intros (? & ? & H). split_and!; [done..|].
      intros j q Hj Hlt. specialize (H j q Hj Hlt). lia.
    + intros (? & ? & H). split_and!; [done..|].
      intros j q Hj Hlt. specialize (H j q Hj Hlt). lia.
Qed.

(** ** The roster *)

Lemma team_evolves_instances t t' :
  Forall2 evolves t t' -> instance <$> t' = instance <$> t.
Proof.
  induction 1 as [|p p' t t' (Hi & _) _ IH]; [done|].
  cbn. by rewrite Hi, IH.
Qed.

Lemma run_roster b0 b logs :
  run b0 = Some (Ok (b, logs)) ->
  instance <$> team_a b = instance <$> team_a b0
  /\ instance <$> team_b b = instance <$> team_b b0.
Proof.
  intros ([HA HB] & _)%run_evolves. split; by apply team_evolves_instances.
Qed.

Lemma make_participants_instances team :
  instance <$> make_participants team = take 3 team.
Proof.
  unfold make_participants. rewrite <- list_fmap_compose. apply list_fmap_id.
Qed.

(** X5: a battle never adds, drops or reorders participants: when [run]
    returns, each team still lists the first three entities it was built
    from, in their order. *)
Theorem battle_keeps_roster ta tb b logs :
  battle ta tb = Some (Ok (b, logs)) ->
  instance <$> team_a b = take 3 ta /\ instance <$> team_b b = take 3 tb.
Proof.
  intros H. unfold battle in H.
  destruct (TeamBattle_init ta tb) as [b0|e] eqn:Hi; [|done].
  apply init_Ok in Hi as ->. apply run_roster in H as [HA HB].
  cbn [team_a team_b] in HA, HB.
  by rewrite HA, HB, !make_participants_instances.
Qed.

Lemma battle_keeps_roster_witness :
  instance <$> [set_current_hp (make_participant healer) 4] = take 3 [healer]
  /\ instance <$> [set_current_hp (make_participant dummy) (-2)] = take 3 [dummy].
Proof.
  eapply (battle_keeps_roster [healer] [dummy]
            {| team_a := [set_current_hp (make_participant healer) 4];
               team_b := [set_current_hp (make_participant dummy) (-2)] |}).
  vm_compute. reflexivity.
Defined.

(** ** Turn headers *)

Lemma turn_body_numbers turn b r :
  turn_body turn b = Ok r ->
  Forall body_line (pass_lines r)
  /\ ((exists b', r = Broke b' []) \/ turn_numbers (pass_lines r) = [turn]).
Proof.
  intros H. apply turn_body_evolves in H as (_ & Hl & Hc).
  pose proof (pass_lines_numbers turn _ Hl) as [Hb _]. split; [done|].
  destruct Hl as [Hnil | (a & d & l' & Hl & Hp)].
  - left. destruct r as [b' l|b' l]; cbn in Hnil; subst l; [by exists b'|].
    by destruct (Hc _ _ eq_refl) as [? _].
  - right. rewrite Hl. change (turn_numbers (LTurn turn a d :: l'))
      with (turn :: turn_numbers l'). by rewrite turn_numbers_phase.
Qed.

Lemma loop_turn_numbers fuel : forall turn b logs b' logs',
  1 <= turn <= 1000 ->
  loop fuel turn b logs = Some (Ok (b', logs')) ->
  exists new n,
    logs' = logs ++ new
    /\ 0 <= n <= 1001 - turn
    /\ turn_numbers new = seqZ turn n
    /\ (LTurnLimit ∈ new -> n = 1001 - turn).
Proof.
  induction fuel as [|fuel IH]; intros turn b logs b' logs' Ht H; [done|].
  cbn [loop] in H. destruct (turn_body turn b) as [[b1 l|b1 l]|e] eqn:Hb; [| |done].
  - injection H as <- <-. apply turn_body_numbers in Hb as (Hl & Hn).
    cbn [pass_lines] in Hl, Hn. apply body_line_not_limit in Hl.
    destruct Hn as [(? & [= _ ->]) | Hn].
    + exists [], 0. split_and!; [done | lia | lia | done | done].
    + exists l, 1. split_and!; [done | lia | lia | by rewrite Hn | done].
  - apply turn_body_numbers in Hb as (Hl & Hn). cbn [pass_lines] in Hl, Hn.
    destruct Hn as [(? & [=]) | Hn]. pose proof (body_line_not_limit _ Hl) as Hnl.
    case_decide as Hcap.
    + injection H as <- <-. exists (l ++ [LTurnLimit]), 1.
      split_and!; [done | lia | lia | | lia].
      by rewrite turn_numbers_app, Hn.
    + apply IH in H as (new & n & -> & Hr & Hnum & Hlim); [|lia].
      exists (l ++ new), (n + 1). split_and!.
      * by rewrite (assoc_L (++)).
      * lia.
      * lia.
      * rewrite turn_numbers_app, Hn, Hnum, (seqZ_cons turn (n + 1)) by lia.
        cbn. do 2 f_equal; lia.
      * intros [Hin | Hin]%elem_of_app; [done|]. specialize (Hlim Hin). lia.
Qed.

(** X6: the turn headers of a transcript count up from 1 without a gap:
    they are numbered 1, 2, ..., n for some n of at most 1000, and n is
    1000 when the transcript holds the turn-limit line. *)
Theorem turn_headers_count_up ta tb b logs :
  battle ta tb = Some (Ok (b, logs)) ->
  exists n,
    0 <= n <= 1000
    /\ turn_numbers logs = seqZ 1 n
    /\ (LTurnLimit ∈ logs -> n = 1000).
Proof.
  intros H. unfold battle in H.
  destruct (TeamBattle_init ta tb) as [b0|e] eqn:Hi; [|done].
  unfold run in H.
  destruct (enter_phase b0) as [[b1 l1]|e] eqn:He; [|done].
  destruct (loop 1000 1 b1 l1) as [[[b2 l2]|e]|] eqn:Hl; [|done..].
  injection H as <- <-.
  apply enter_phase_evolves in He as [_ Hl1].
  apply loop_turn_numbers in Hl as (new & n & -> & Hr & Hnum & Hlim); [|lia].
  destruct (turn_numbers_tail _ (verdict_is_verdict b2)) as [Hv _].
  exists n. split_and!; [lia | lia | |].
  - by rewrite !turn_numbers_app, (turn_numbers_phase l1), Hv, app_nil_r.
  - intros [[Hin | Hin]%elem_of_app | Hin]%elem_of_app.
    + exfalso. revert Hin. apply body_line_not_limit.
      eapply Forall_impl; [done | apply phase_line_body].
    + specialize (Hlim Hin). lia.
    + apply list_elem_of_singleton in Hin.
      by destruct (verdict_is_verdict b2) as [Hw | [Hw | Hw]];
        rewrite Hw in Hin.
Qed.

Lemma turn_headers_count_up_witness :
  exists n,
    0 <= n <= 1000
    /\ turn_numbers
         [LTurn 1 "#1 A" "#2 B"; LDeals "#1 A" 5 "#2 B" 5;
          LDeals "#2 B" 1 "#1 A" 19; LTurn 2 "#1 A" "#2 B";
          LDeals "#1 A" 5 "#2 B" 0; LDefeated "#2 B"; LTeamAWins]
       = seqZ 1 n
    /\ (LTurnLimit ∈
          [LTurn 1 "#1 A" "#2 B"; LDeals "#1 A" 5 "#2 B" 5;
           LDeals "#2 B" 1 "#1 A" 19; LTurn 2 "#1 A" "#2 B";
           LDeals "#1 A" 5 "#2 B" 0; LDefeated "#2 B"; LTeamAWins]
        -> n = 1000).
Proof.
  apply (turn_headers_count_up [plain_a] [plain_b]
           {| team_a := [set_current_hp (make_participant plain_a) 19];
              team_b := [set_current_hp (make_participant plain_b) 0] |}).
  vm_compute. reflexivity.
Defined.

(** ** Who is left standing *)

#[local] Instance outlives_refl : Reflexive outlives.
Proof. intros p Hb. split; [lia | done]. Qed.

#[local] Instance outlives_trans : Transitive outlives.
Proof.
  intros p q r Hpq Hqr Hb. destruct (Hpq Hb) as [? Hq].
  destruct (Hqr Hq). split; [lia | done].
Qed.

Lemma hook_outlives when a tg a' t' l :
  apply_abilities when a (Some tg) = Ok (a', t', l) ->
  exists tg', t' = Some tg' /\ outlives a a' /\ outlives tg tg'.
Proof.
  intros H.
  destruct (apply_abilities_target _ _ _ _ _ _ H) as (tg' & -> & Htg).
  pose proof (apply_abilities_heals _ _ _ _ _ _ H) as Hh. cbn in Hh.
  exists tg'. split_and!; [done | exact Hh |].
  rewrite Htg. intros Hb. unfold hp_bounded in *. cbn. split; [lia | done].
Qed.

(** The attacker comes out of its own attack no weaker than it went in. *)
Lemma attack_phase_attacker i j att def att_team def_team ta td l :
  att_team !! i = Some att ->
  attack_phase i j att def att_team def_team = Ok (ta, td, l) ->
  exists p, ta !! i = Some p /\ outlives att p.
Proof.
  intros Hi H. unfold attack_phase in H.
  apply bind_Ok in H as ([[att1 def1] l1] & Hx & H).
  apply bind_Ok in H as ([[ta' td'] l2] & Hd & H). injection H as <- <- <-.
  apply lookup_lt_Some in Hi.
  apply exchange_inv in Hx
    as (a1 & d1 & k1 & dmg & d2 & a2 & k2 & dmg' & k3
        & H1 & _ & H2 & _ & -> & -> & _).
  apply hook_outlives in H1 as (? & [= <-] & Ha1 & _).
  apply hook_outlives in H2 as (? & [= <-] & _ & Ha2).
  assert (outlives att (reset_attack a2)) as Hout.
  { etrans; [exact Ha1|]. etrans; [exact Ha2|].
    intros Hb. unfold hp_bounded in *. cbn. split; [lia | done]. }
  unfold defeat_block in Hd. case_decide.
  - apply bind_Ok in Hd as ([[d3 oa3] k4] & H3 & Hd).
    apply hook_outlives in H3 as (a3 & -> & _ & Ha3).
    cbn beta iota in Hd. cbn [default] in Hd.
    destruct (active _) as [[k nxt]|].
    + apply bind_Ok in Hd as ([[nxt1 oa4] k5] & H4 & Hd).
      apply hook_outlives in H4 as (a4 & -> & _ & Ha4).
      cbn in Hd. injection Hd as <- <- <-.
      exists a4. split; [by apply list_lookup_insert_eq|].
      etrans; [exact Hout|]. by etrans.
    + injection Hd as <- <- <-.
      exists a3. split; [by apply list_lookup_insert_eq | by etrans].
  - injection Hd as <- <- <-.
    exists (reset_attack a2). split; [by apply list_lookup_insert_eq | done].
Qed.

Lemma any_alive_lookup team i p :
  team !! i = Some p -> 0 < current_hp p -> any_alive team = true.
Proof.
  intros Hi Hp. destruct (any_alive team) eqn:Ha; [done|].
  apply any_alive_false in Ha. rewrite Forall_lookup in Ha.
  by destruct (Ha _ _ Hi).
Qed.

Lemma any_alive_active team :
  any_alive team = true <-> exists i p, active team = Some (i, p).
Proof.
  destruct (active team) as [[i p]|] eqn:Ha.
  - apply active_Some in Ha as [Hi Hp]. split; [by eauto|].
    intros _. by eapply any_alive_lookup.
  - apply active_None in Ha. rewrite Ha.
    split; [done | by intros (? & ? & ?)].
Qed.

Lemma hp_ok_lookup team i p :
  Forall hp_ok team -> team !! i = Some p -> hp_bounded p.
Proof. rewrite Forall_lookup. intros H Hi. by destruct (H _ _ Hi). Qed.

(** How a pass ends: by the first [break] on an unchanged battle with a
    team down, by the second [break] with team A standing and team B down,
    or at line 153 with team B standing. *)
Lemma turn_body_standing turn b r :
  battle_hp_ok b ->
  turn_body turn b = Ok r ->
  match r with
  | Broke b' l =>
      (b' = b /\ l = []
       /\ (any_alive (team_a b) = false \/ any_alive (team_b b) = false))
      \/ (any_alive (team_a b') = true /\ any_alive (team_b b') = false)
  | Completed b' l => any_alive (team_b b') = true
  end.
Proof.
  intros [HokA HokB] H. pose proof H as (He & _)%turn_body_evolves.
  unfold turn_body in H.
  destruct (active (team_a b)) as [[i a]|] eqn:Ha;
    [destruct (active (team_b b)) as [[j d]|] eqn:Hd|].
  2: { injection H as <-. left. split_and!; [done | done |].
       right. by apply active_None. }
  2: { injection H as <-. left. split_and!; [done | done |].
       left. by apply active_None. }
  apply bind_Ok in H as ([[ta1 tb1] l1] & H1 & H). cbn beta iota in H.
  apply active_Some in Ha as [Hia Hpa].
  pose proof (attack_phase_attacker _ _ _ _ _ _ _ _ _ Hia H1) as (p & Hp & Hout).
  destruct (Hout (hp_ok_lookup _ _ _ HokA Hia)) as [Hge _].
  assert (any_alive ta1 = true) as HaliveA
    by (eapply any_alive_lookup; [done | lia]).
  destruct (active ta1) as [[i' a']|] eqn:Ha'.
  2: { apply active_None in Ha'. congruence. }
  destruct (active tb1) as [[j' d']|] eqn:Hd'.
  2: { injection H as <-. right. cbn [team_a team_b].
       split; [done | by apply active_None]. }
  apply bind_Ok in H as ([[tb2 ta2] l2] & H2 & H). injection H as <-.
  cbn [team_b].
  apply active_Some in Hd' as [Hjd' Hpd']. apply active_Some in Hd as [Hjd Hpd].
  pose proof (attack_phase_attacker _ _ _ _ _ _ _ _ _ Hjd' H2) as (q & Hq & Hout').
  apply attack_phase_evolves in H1 as (_ & HB1 & _); [|done..].
  pose proof (team_evolves_hp_ok _ _ HB1 HokB) as HokB1.
  destruct (Hout' (hp_ok_lookup _ _ _ HokB1 Hjd')) as [Hge' _].
  eapply any_alive_lookup; [done | lia].
Qed.

Lemma loop_standing fuel : forall turn b logs b' logs',
  1 <= turn <= 1000 ->
  battle_hp_ok b ->
  any_alive (team_a b) || any_alive (team_b b) = true ->
  loop fuel turn b logs = Some (Ok (b', logs')) ->
  (exists new, logs' = logs ++ new /\ Forall body_line new
     /\ xorb (any_alive (team_a b')) (any_alive (team_b b')) = true)
  \/ (exists new, logs' = logs ++ new ++ [LTurnLimit] /\ Forall body_line new
        /\ any_alive (team_b b') = true).
Proof.
  induction fuel as [|fuel IH]; intros turn b logs b' logs' Ht Hok Hal H; [done|].
  cbn [loop] in H. destruct (turn_body turn b) as [[b1 l|b1 l]|e] eqn:Hb; [| |done].
  - injection H as <- <-.
    pose proof (turn_body_numbers _ _ _ Hb) as [Hl _].
    apply turn_body_standing in Hb as [(-> & -> & Hdown) | [HA HB]]; [| |done].
    + left. exists []. split_and!; [by rewrite app_nil_r | done |].
      destruct (any_alive (team_a _)), (any_alive (team_b _));
        by destruct Hdown.
    + left. exists l. split_and!; [done | done |]. by rewrite HA, HB.
  - pose proof (turn_body_numbers _ _ _ Hb) as [Hl _].
    pose proof Hb as (He & _)%turn_body_evolves. cbn in He, Hl.
    apply turn_body_standing in Hb; [|done].
    case_decide as Hcap.
    + injection H as <- <-. right. by exists l.
    + apply IH in H as [(new & -> & Hnew & Hx) | (new & -> & Hnew & HB)].
      * left. exists (l ++ new).
        split_and!; [by rewrite (assoc_L (++)) | by apply Forall_app | done].
      * right. exists (l ++ new).
        split_and!; [by rewrite !(assoc_L (++)) | by apply Forall_app | done].
      * lia.
      * by eapply battle_evolves_hp_ok.
      * rewrite Hb. apply orb_true_r.
Qed.

Lemma make_participants_alive team :
  any_alive (make_participants team) = team_alive team.
Proof.
  unfold make_participants, team_alive, any_alive.
  induction (take 3 team) as [|i l IH]; [done|]. cbn. by rewrite IH.
Qed.

(** Alive teams stay alive through the opening [on_enter] hooks, and a
    battle with nobody alive is left as it is. *)
Lemma enter_phase_standing b b1 l1 :
  battle_hp_ok b ->
  enter_phase b = Ok (b1, l1) ->
  (any_alive (team_a b) = true -> any_alive (team_a b1) = true)
  /\ (any_alive (team_b b) = true -> any_alive (team_b b1) = true).
Proof.
  intros [HokA HokB] H. unfold enter_phase in H.
  destruct (active (team_a b)) as [[i a]|] eqn:Ha;
    destruct (active (team_b b)) as [[j d]|] eqn:Hd;
    try (apply active_Some in Ha as [Hia Hpa];
         pose proof (hp_ok_lookup _ _ _ HokA Hia) as Hba;
         pose proof (lookup_lt_Some _ _ _ Hia) as Hli);
    try (apply active_Some in Hd as [Hjd Hpd];
         pose proof (hp_ok_lookup _ _ _ HokB Hjd) as Hbd;
         pose proof (lookup_lt_Some _ _ _ Hjd) as Hlj).
  - apply bind_Ok in H as ([[a1 od1] l] & H1 & H).
    apply hook_outlives in H1 as (d1 & -> & Ha1 & Hd1).
    cbn beta iota in H. cbn [default from_option id] in H.
    apply bind_Ok in H as ([[d2 oa2] l2] & H2 & H).
    apply hook_outlives in H2 as (a2 & -> & Hd2 & Ha2).
    cbn in H. injection H as <- <-. cbn [team_a team_b].
    destruct (Ha1 Hba) as [? Hba1]. destruct (Ha2 Hba1) as [? _].
    destruct (Hd1 Hbd) as [? Hbd1]. destruct (Hd2 Hbd1) as [? _].
    split; intros _;
      (eapply any_alive_lookup; [by apply list_lookup_insert_eq | lia]).
  - apply bind_Ok in H as ([[a1 od1] l] & H1 & H).
    pose proof (apply_abilities_heals _ _ _ _ _ _ H1) as Hh.
    unfold hook_heals in Hh. cbn [fst] in Hh.
    cbn in H. injection H as <- <-. cbn [team_a team_b]. destruct (Hh Hba) as [? _].
    split; [intros _|done].
    eapply any_alive_lookup; [by apply list_lookup_insert_eq | lia].
  - apply bind_Ok in H as ([[d1 oa1] l] & H1 & H).
    pose proof (apply_abilities_heals _ _ _ _ _ _ H1) as Hh.
    unfold hook_heals in Hh. cbn [fst] in Hh.
    cbn in H. injection H as <- <-. cbn [team_a team_b]. destruct (Hh Hbd) as [? _].
    split; [done|intros _].
    eapply any_alive_lookup; [by apply list_lookup_insert_eq | lia].
  - by injection H as <- <-.
Qed.

Lemma phase_lines_not_limit l : Forall phase_line l -> LTurnLimit ∉ l.
Proof.
  intros H. apply body_line_not_limit.
  eapply Forall_impl; [done | apply phase_line_body].
Qed.

(** X7: who wins.  When the transcript holds the turn-limit line, team B
    still has a participant standing and the verdict is never "Team A
    wins!".  When it does not and some entity of either team entered with
    positive health, exactly one team is left standing and the verdict is
    a win, never a draw.  When no entity of either team has positive
    health, the transcript is the single line "Battle ended in a draw.". *)
Theorem verdict_of_battle ta tb b logs :
  battle ta tb = Some (Ok (b, logs)) ->
  (LTurnLimit ∈ logs ->
     any_alive (team_b b) = true /\ verdict b <> LTeamAWins)
  /\ (LTurnLimit ∉ logs -> team_alive ta || team_alive tb = true ->
      xorb (any_alive (team_a b)) (any_alive (team_b b)) = true
      /\ (verdict b = LTeamAWins \/ verdict b = LTeamBWins))
  /\ (team_alive ta || team_alive tb = false -> logs = [LDraw]).
Proof.
  intros H. unfold battle in H.
  destruct (TeamBattle_init ta tb) as [b0|e] eqn:Hi; [|done].
  apply init_Ok in Hi as ->.
  set (b0 := {| team_a := make_participants ta;
                team_b := make_participants tb |}) in *.
  assert (battle_hp_ok b0) as Hok by (split; apply make_participants_hp_ok).
  assert (any_alive (team_a b0) = team_alive ta) as HalA
    by apply make_participants_alive.
  assert (any_alive (team_b b0) = team_alive tb) as HalB
    by apply make_participants_alive.
  destruct (team_alive ta || team_alive tb) eqn:Hal.
  - unfold run in H.
    destruct (enter_phase b0) as [[b1 l1]|e] eqn:He; [|done].
    destruct (loop 1000 1 b1 l1) as [[[b2 l2]|e]|] eqn:Hl; [|done..].
    injection H as <- <-.
    pose proof (enter_phase_standing _ _ _ Hok He) as [HsA HsB].
    apply enter_phase_evolves in He as [He Hl1].
    apply phase_lines_not_limit in Hl1.
    apply loop_standing in Hl
      as [(new & -> & Hnew & Hx) | (new & -> & Hnew & HB)]; [| |lia| |].
    + apply body_line_not_limit in Hnew. split_and!; [|split|done].
      * intros [[Hin | Hin]%elem_of_app | Hin]%elem_of_app; [done | done |].
        apply list_elem_of_singleton in Hin.
        by destruct (verdict_is_verdict b2) as [Hw | [Hw | Hw]];
          rewrite Hw in Hin.
      * done.
      * unfold verdict.
        destruct (any_alive (team_a b2)), (any_alive (team_b b2));
          cbn in *; auto; done.
    + split_and!; [|intros Hno; destruct Hno; set_solver|done].
      intros _. split; [done|]. unfold verdict. rewrite HB.
      by destruct (any_alive (team_a b2)).
    + by eapply battle_evolves_hp_ok.
    + rewrite <- HalA, <- HalB in Hal.
      apply orb_true_iff in Hal as [Hal | Hal];
        [rewrite (HsA Hal) | rewrite (HsB Hal), orb_true_r]; done.
  - apply orb_false_iff in Hal as [HA HB]. rewrite <- HalA in HA.
    rewrite <- HalB in HB.
    assert (run b0 = Some (Ok (b0, [LDraw]))) as Hrun.
    { unfold run, enter_phase.
      rewrite (proj2 (active_None _) HA).
      rewrite (proj2 (active_None _) HB).
      cbn [loop]. unfold turn_body.
      rewrite (proj2 (active_None _) HA).
      unfold verdict. by rewrite HA, HB. }
    rewrite Hrun in H. injection H as <- <-.
    split_and!; [|done..].
    intros Hin. apply list_elem_of_singleton in Hin. discriminate.
Qed.

Lemma verdict_of_battle_witness :
  let b := {| team_a := [make_participant plain_a];
              team_b := [set_current_hp (make_participant frail) 0] |} in
  let logs := [LTurn 1 "#1 A" "#3 C"; LDeals "#1 A" 5 "#3 C" 0;
               LDefeated "#3 C"; LTeamAWins] in
  (LTurnLimit ∈ logs ->
     any_alive (team_b b) = true /\ verdict b <> LTeamAWins)
  /\ (LTurnLimit ∉ logs -> team_alive [plain_a] || team_alive [frail] = true ->
      xorb (any_alive (team_a b)) (any_alive (team_b b)) = true
      /\ (verdict b = LTeamAWins \/ verdict b = LTeamBWins))
  /\ (team_alive [plain_a] || team_alive [frail] = false -> logs = [LDraw]).
Proof.
  intros b logs. apply (verdict_of_battle [plain_a] [frail] b logs).
  vm_compute. reflexivity.
Defined.

(** * Validation of ability logic *)

Lemma first_failure_None {A} (check : A -> option failure) l :
  first_failure check l = None <-> Forall (fun x => check x = None) l.
Proof.
  induction l as [|x l IH]; [by split; [constructor|]|].
  cbn [first_failure]. rewrite Forall_cons. destruct (check x).
  - split; [done | by intros [? _]].
  - rewrite IH. split; [by split | by intros [_ ?]].
Qed.

Lemma check_entry_None e : check_entry e = None <-> well_formed_entry e.
Proof.
  unfold well_formed_entry. split.
  - destruct e as [| | | | |l|d]; cbn; try done.
    destruct (dict_get "type" d) as [| | | |s| |] eqn:Ht; try done.
    case_decide; [|done].
    destruct (dict_lookup "value" d) as [v|] eqn:Hv; [|done].
    intros _. by exists d, s.
  - intros (d & s & -> & Ht & Hs & [v Hv]). cbn. rewrite Ht, Hv.
    by case_decide.
Qed.

Lemma check_hook_None item : check_hook item = None <-> well_formed_hook item.
Proof.
  destruct item as [hook entries]. unfold check_hook, well_formed_hook; cbn.
  case_decide; [|by split; [|intros [? _]]].
  destruct entries as [| | | | |es|d];
    try (split; [done | by intros (_ & ? & ? & _)]).
  rewrite first_failure_None. split.
  - intros Hes. split; [done|]. exists es. split; [done|].
    eapply Forall_impl; [exact Hes|]. intros e. apply check_entry_None.
  - intros (_ & es' & [= <-] & Hes).
    eapply Forall_impl; [exact Hes|]. intros e. apply check_entry_None.
Qed.

Lemma clean_dict_accepts d data' :
  clean_capacity_logic (JDict d) = Cleaned data' -> Forall well_formed_hook d.
Proof.
  unfold clean_capacity_logic. destruct (json_truthy (JDict d)) eqn:Htr.
  - destruct (first_failure check_hook d) eqn:Hf; [done|]. intros _.
    apply first_failure_None in Hf.
    eapply Forall_impl; [exact Hf|]. intros i. apply check_hook_None.
  - intros _. cbn in Htr. case_bool_decide; [by subst | done].
Qed.

(** X8: what validation accepts.  [clean_capacity_logic] returns a value
    exactly in two cases: the data is falsy (None, an empty dict, 0, ...)
    and the value is the empty dict; or the data is a non-empty dict whose
    every key is one of the four hooks and maps to a list of dicts, each
    with a string type among the four ability types and a "value" key, and
    the value returned is the data itself.  The content under "value" is
    never examined. *)
Theorem clean_capacity_logic_accepts data data' :
  clean_capacity_logic data = Cleaned data' <->
  (json_truthy data = false /\ data' = JDict [])
  \/ (exists d, data = JDict d /\ d <> [] /\ data' = data
                /\ Forall well_formed_hook d).
Proof.
  unfold clean_capacity_logic. destruct (json_truthy data) eqn:Htr.
  - split.
    + destruct data as [| | | | | |d]; try done.
      destruct (first_failure check_hook d) eqn:Hf; [done|].
      intros [= <-]. right. exists d. split_and!; [done | | done |].
      * intros ->. done.
      * apply first_failure_None in Hf.
        eapply Forall_impl; [exact Hf|]. intros i. apply check_hook_None.
    + intros [[? _] | (d & -> & _ & -> & H)]; [done|].
      assert (first_failure check_hook d = None) as ->; [|done].
      apply first_failure_None.
      eapply Forall_impl; [exact H|]. intros i. apply check_hook_None.
  - split.
    + intros [= <-]. by left.
    + intros [[_ ->] | (d & -> & Hd & _)]; [done|].
      cbn in Htr. by case_bool_decide.
Qed.

(** X9: validation is idempotent: a value that [clean_capacity_logic]
    returned is returned unchanged when cleaned again. *)
Theorem clean_capacity_logic_idempotent data data' :
  clean_capacity_logic data = Cleaned data' ->
  clean_capacity_logic data' = Cleaned data'.
Proof.
  unfold clean_capacity_logic. destruct (json_truthy data) eqn:Htr.
  - destruct data as [| | | | | |d]; try done.
    destruct (first_failure check_hook d) eqn:Hf; [done|].
    intros [= <-]. by rewrite Htr, Hf.
  - by intros [= <-].
Qed.

Lemma clean_capacity_logic_idempotent_witness :
  clean_capacity_logic
    (JDict [("on_enter"%string,
             JList [JDict [("type"%string, JStr "heal");
                           ("value"%string, JStr "a lot")]])])
  = Cleaned
      (JDict [("on_enter"%string,
               JList [JDict [("type"%string, JStr "heal");
                             ("value"%string, JStr "a lot")]])]).
Proof.
  apply (clean_capacity_logic_idempotent
           (JDict [("on_enter"%string,
                    JList [JDict [("type"%string, JStr "heal");
                                  ("value"%string, JStr "a lot")]])])).
  vm_compute. reflexivity.
Defined.

Lemma well_formed_json_of_entry e :
  well_formed_entry (json_of_entry e) ->
  (exists s, e_type e = Some s /\ s ∈ supported_types) /\ is_Some (e_value e).
Proof.
  intros (d & s & [= <-] & Ht & Hs & Hv).
  destruct e as [[t|] [v|]]; cbn in *.
  - unfold dict_get in Ht; cbn in Ht. injection Ht as ->. split; [|by eexists].
    by exists s.
  - exfalso. unfold dict_lookup in Hv. cbn in Hv. by destruct Hv.
  - unfold dict_get in Ht; cbn in Ht. done.
  - unfold dict_get in Ht; cbn in Ht. done.
Qed.

(** X10: validation and the engine agree on the ability types.  When the
    JSON of an entity's ability logic passes [clean_capacity_logic], every
    hook it names is one of the four the engine fires, every entry has one
    of the four types the engine supports and carries a value, and no hook
    pass of a participant of that entity ever logs an
    "Unknown ability type" line. *)
Theorem validated_logic_is_supported logic data' :
  clean_capacity_logic (json_of_logic logic) = Cleaned data' ->
  Forall (fun '(hook, es) =>
            hook ∈ allowed_hooks
            /\ Forall (fun e => (exists s, e_type e = Some s /\ s ∈ supported_types)
                                /\ is_Some (e_value e)) es) logic
  /\ (forall when actor target a' t' l,
        capacity_logic (countryball (instance actor)) = Some (list_to_map logic) ->
        apply_abilities when actor target = Ok (a', t', l) ->
        Forall (fun x => forall t, x <> LUnknown t) l).
Proof.
  intros H.
  assert (Forall (fun '(hook, es) =>
            hook ∈ allowed_hooks
            /\ Forall (fun e => (exists s, e_type e = Some s /\ s ∈ supported_types)
                                /\ is_Some (e_value e)) es) logic) as Hwf.
  { unfold json_of_logic in H. apply clean_dict_accepts in H as Hd.
    - apply (proj1 (Forall_fmap json_of_hook well_formed_hook logic)) in Hd.
      eapply Forall_impl; [exact Hd|].
      intros [hook es] [Hh (es' & Hes' & Hes)]; cbn in *. split; [done|].
      injection Hes' as <-.
      apply (proj1 (Forall_fmap json_of_entry well_formed_entry es)) in Hes.
      eapply Forall_impl; [exact Hes|].
      intros e. apply well_formed_json_of_entry. }
  split; [done|].
  intros when actor target a' t' l Hlogic Happ. unfold apply_abilities in Happ.
  unfold logic_of in Happ. rewrite Hlogic in Happ.
  change (default ∅ (Some (list_to_map logic)))
    with (list_to_map logic : gmap string (list entry)) in Happ.
  destruct ((list_to_map logic : gmap string (list entry)) !! when)
    as [es|] eqn:Hes.
  2: { cbn in Happ. injection Happ as <- <- <-. constructor. }
  cbn [default from_option id] in Happ.
  apply elem_of_list_to_map_2 in Hes.
  rewrite Forall_forall in Hwf. specialize (Hwf _ Hes) as [_ Hsup].
  clear Hes Hlogic. revert actor target a' t' l Happ.
  induction es as [|e es IH]; intros actor target a' t' l Happ; cbn in Happ.
  - injection Happ as <- <- <-. constructor.
  - apply Forall_cons in Hsup as [[(s & Hs & Hin) _] Hsup].
    apply bind_Ok in Happ as ([[a1 t1] l1] & H1 & Happ). cbn beta iota in Happ.
    apply bind_Ok in Happ as ([[a2 t2] l2] & H2 & Happ). injection Happ as <- <- <-.
    apply Forall_app. split; [|by eapply IH].
    unfold supported_types in Hin.
    unfold apply_entry in H1. rewrite Hs in H1.
    repeat (apply elem_of_cons in Hin as [-> | Hin]).
    5: by apply elem_of_nil in Hin.
    all: repeat (case_decide; [|try done]); try done.
    all: ok_inv H1; try (destruct target; ok_inv H1);
      injection H1 as <- <- <-; by repeat constructor.
Qed.

Lemma validated_logic_is_supported_witness :
  Forall (fun '(hook, es) =>
            hook ∈ allowed_hooks
            /\ Forall (fun e => (exists s, e_type e = Some s /\ s ∈ supported_types)
                                /\ is_Some (e_value e)) es)
    [("on_defend"%string, [shield_entry PyFloat.f0_5])]
  /\ (forall when actor target a' t' l,
        capacity_logic (countryball (instance actor))
        = Some (list_to_map [("on_defend"%string, [shield_entry PyFloat.f0_5])]) ->
        apply_abilities when actor target = Ok (a', t', l) ->
        Forall (fun x => forall t, x <> LUnknown t) l).
Proof.
  eapply (validated_logic_is_supported
            [("on_defend"%string, [shield_entry PyFloat.f0_5])]).
  vm_compute. reflexivity.
Defined.

(** * Battle sessions *)

Lemma load_instances_length w ids l :
  load_instances w ids = inl l -> length l = length ids.
Proof.
  revert l. induction ids as [|i ids IH]; intros l H; cbn in H.
  - by injection H as <-.
  - destruct (w_instance w i); [|done].
    destruct (load_instances w ids) as [l'|]; [|done].
    injection H as <-. cbn. by rewrite (IH l').
Qed.

Lemma load_instances_missing w ids pk :
  load_instances w ids = inr pk -> pk ∈ ids /\ w_instance w pk = None.
Proof.
  induction ids as [|i ids IH]; intros H; cbn in H; [done|].
  destruct (w_instance w i) eqn:Hi.
  - destruct (load_instances w ids) as [l'|j]; [done|].
    injection H as ->. destruct IH as [? ?]; [done|]. split; [by right | done].
  - injection H as <-. split; [by left | done].
Qed.

Lemma battle_total ta tb : exists r, battle ta tb = Some r.
Proof.
  unfold battle. destruct (TeamBattle_init ta tb); [apply run_total | eauto].
Qed.

(** An exception of a battle between non-empty teams is raised by [run],
    in a conversion. *)
Lemma battle_raises ta tb e :
  ta <> [] -> tb <> [] -> battle ta tb = Some (Raise e) ->
  exists b0,
    TeamBattle_init ta tb = Ok b0 /\ run b0 = Some (Raise e)
    /\ (conversion_error e \/ value_error e)
    /\ (Forall numeric_entity ta -> Forall numeric_entity tb ->
        conversion_error e).
Proof.
  intros Ha Hb H. unfold battle in H.
  destruct (TeamBattle_init ta tb) as [b0|] eqn:Hi; [|by destruct ta, tb].
  exists b0. split_and!; [done | done | by eapply run_raises_any |].
  intros Hna Hnb. apply init_Ok in Hi as ->.
  eapply run_raises_numeric; [| |exact H]; cbn [team_a team_b];
    apply make_participants_admit; by apply Forall_take.
Qed.

Lemma battle_last ta tb b logs :
  battle ta tb = Some (Ok (b, logs)) -> last logs = Some (verdict b).
Proof.
  intros H. unfold battle in H.
  destruct (TeamBattle_init ta tb); [|done].
  apply run_evolves in H as (_ & body & _ & [-> | ->] & _); [apply last_snoc|].
  change [LTurnLimit; verdict b] with ([LTurnLimit] ++ [verdict b]).
  rewrite (assoc_L (++)). apply last_snoc.
Qed.

Lemma battle_full_roster ta tb b logs :
  (length ta <= 3)%nat -> (length tb <= 3)%nat ->
  battle ta tb = Some (Ok (b, logs)) ->
  instance <$> team_a b = ta /\ instance <$> team_b b = tb.
Proof.
  intros Ha Hb H. unfold battle in H.
  destruct (TeamBattle_init ta tb) as [b0|e] eqn:Hi; [|done].
  apply init_Ok in Hi as ->. apply run_roster in H as [HA HB].
  cbn [team_a team_b] in HA, HB.
  by rewrite HA, HB, !make_participants_instances, !take_ge.
Qed.

Lemma verdict_of_winner_winner b : verdict_of_winner (winner b) = verdict b.
Proof.
  unfold verdict_of_winner, winner, verdict.
  destruct (any_alive (team_a b)), (any_alive (team_b b)); cbn;
    repeat case_decide; done.
Qed.

Lemma NoDup_snoc_fresh {A} (l : list A) x : NoDup l -> x ∉ l -> NoDup (l ++ [x]).
Proof.
  intros Hl Hx. apply NoDup_app. split_and!; [done | | apply NoDup_singleton].
  intros y Hy ->%list_elem_of_singleton. done.
Qed.

Lemma NoDup_mid_fresh {A} (l k : list A) x :
  NoDup (l ++ k) -> x ∉ l -> x ∉ k -> NoDup ((l ++ [x]) ++ k).
Proof.
  intros (Hl & Hlk & Hk)%NoDup_app Hxl Hxk. apply NoDup_app. split_and!.
  - by apply NoDup_snoc_fresh.
  - intros y [Hy | ->%list_elem_of_singleton]%elem_of_app; [by apply Hlk | done].
  - done.
Qed.

Lemma add_to_team_ok uid instance_id sess :
  session_ok sess ->
  uid = s_host sess \/ uid = s_opponent sess ->
  Z.of_nat (length (team_of uid sess)) < s_limit sess ->
  instance_id ∉ s_team_a sess -> instance_id ∉ s_team_b sess ->
  session_ok (add_to_team uid instance_id sess).
Proof.
  intros (Hlim & Hla & Hlb & Hnd & Hca & Hcb & Hdom & Hself) Hu Hlen Hna Hnb.
  unfold session_ok, add_to_team, team_of in *; cbn.
  split; [done|]. split_and!.
  - case_decide; [rewrite length_app; cbn; lia | done].
  - case_decide; [done | rewrite length_app; cbn; lia].
  - case_decide; [by apply NoDup_mid_fresh|].
    rewrite (assoc_L (++)). apply NoDup_snoc_fresh; [done|].
    by intros [?|?]%elem_of_app.
  - intros Hc. exfalso. revert Hc. rewrite lookup_insert.
    destruct (decide (s_opponent sess = s_host sess)); [done|].
    by rewrite lookup_insert_eq.
  - intros Hc. exfalso. revert Hc. by rewrite lookup_insert_eq.
  - rewrite !dom_insert_L, Hdom. apply set_eq. intros x.
    rewrite !elem_of_union, !elem_of_singleton. tauto.
  - intros Heq. case_decide; [by apply Hself|].
    destruct Hu; congruence.
Qed.

Lemma set_confirmed_ok uid sess :
  session_ok sess ->
  uid = s_host sess \/ uid = s_opponent sess ->
  ~ (uid = s_host sess /\ s_team_a sess = []) ->
  ~ (uid = s_opponent sess /\ s_team_b sess = []) ->
  session_ok (set_confirmed uid sess).
Proof.
  intros (Hlim & Hla & Hlb & Hnd & Hca & Hcb & Hdom & Hself) Hu Hna Hnb.
  unfold session_ok, set_confirmed; cbn. split_and!; try done; try lia.
  - rewrite lookup_insert.
    destruct (decide (uid = s_host sess)); [|done]. intros _ He. by apply Hna.
  - rewrite lookup_insert.
    destruct (decide (uid = s_opponent sess)); [|done].
    intros _ He. by apply Hnb.
  - rewrite dom_insert_L, Hdom. apply set_eq. intros x.
    rewrite !elem_of_union, !elem_of_singleton. 
    destruct Hu; subst; tauto.
Qed.

(** X11: the invariant of the session store.  Whatever command runs, in
    every session the limit stays within 1..3, neither team grows past the
    limit, no instance id appears twice across the two teams, a player
    marked as confirmed has a non-empty team, the keys of the confirmation
    dict are exactly the host and the opponent, and a player who challenged
    themself has an empty team B. *)
Theorem sessions_stay_ok ss :
  sessions_ok ss ->
  (forall session_id user channel limit opponent,
      sessions_ok (battle_start session_id user channel limit opponent ss).1)
  /\ (forall w session_id uid instance_id,
      sessions_ok (battle_add w session_id uid instance_id ss).1)
  /\ (forall w session_id uid o,
      battle_confirm w session_id uid ss = Some o ->
      sessions_ok (outcome_sessions o)).
Proof.
  intros Hok. split_and!.
  - intros sid user channel limit opponent. unfold battle_start.
    case_decide as Hlim; [done|]. destruct opponent as [opp|]; [|done].
    cbn. apply map_Forall_insert_2; [|done].
    unfold session_ok; cbn. split_and!; try done; try lia.
    + apply NoDup_nil_2.
    + rewrite lookup_insert. case_decide; [done|].
      rewrite lookup_singleton_eq. done.
    + by rewrite lookup_insert_eq.
    + rewrite dom_insert_L, dom_singleton_L. apply set_eq. intros x.
      rewrite !elem_of_union, !elem_of_singleton. tauto.
  - intros w sid uid iid. unfold battle_add.
    destruct (ss !! sid) as [sess|] eqn:Hs; [|done].
    case_decide as Hpart; [done|].
    destruct (w_instance w iid); [|done].
    destruct (_ || _); [done|].
    case_decide as Hfull; [done|]. case_decide as Hdup; [done|].
    cbn. apply map_Forall_insert_2; [|done].
    apply add_to_team_ok; [by eapply Hok | | lia | tauto | tauto].
    destruct (decide (uid = s_host sess)); [tauto|].
    destruct (decide (uid = s_opponent sess)); tauto.
  - intros w sid uid o H. unfold battle_confirm in H.
    destruct (ss !! sid) as [sess|] eqn:Hs; [|by injection H as <-].
    case_decide as Hpart; [by injection H as <-|].
    case_decide as Ha; [by injection H as <-|].
    case_decide as Hb; [by injection H as <-|].
    assert (sessions_ok (<[sid:=set_confirmed uid sess]> ss)) as Hok'.
    { apply map_Forall_insert_2; [|done].
      apply set_confirmed_ok; [by eapply Hok | | done | done].
      destruct (decide (uid = s_host sess)); [tauto|].
      destruct (decide (uid = s_opponent sess)); tauto. }
    destruct (all_confirmed _); [|by injection H as <-].
    destruct (load_instances w (s_team_a _)) as [a_list|]; [|by injection H as <-].
    destruct (load_instances w (s_team_b _)) as [b_list|]; [|by injection H as <-].
    destruct (battle a_list b_list) as [[[b logs]|e]|]; [| |done].
    + injection H as <-. by apply map_Forall_delete.
    + by injection H as <-.
Qed.

Lemma sessions_stay_ok_witness :
  sessions_ok (battle_start "s2" 1 0 2 (Some 2) duel_store).1
  /\ sessions_ok (battle_add small_world "s1" 1 3 duel_store).1
  /\ (forall o, battle_confirm small_world "s1" 2 duel_store = Some o ->
      sessions_ok (outcome_sessions o)).
Proof.
  destruct (sessions_stay_ok duel_store) as (Hs & Ha & Hc).
  - apply map_Forall_singleton. apply (bool_decide_unpack _).
    vm_compute. exact I.
  - split_and!; [apply Hs | apply Ha | apply Hc].
Defined.

#[global] Instance session_ok_dec s : Decision (session_ok s).
Proof. unfold session_ok. apply _. Defined.

Lemma all_confirmed_lookup sess u :
  all_confirmed sess = true -> u ∈ dom (s_confirmed sess) ->
  s_confirmed sess !! u = Some true.
Proof.
  intros Hall%bool_decide_eq_true [v Hv]%elem_of_dom.
  rewrite Hv. f_equal. exact (Hall u v Hv).
Qed.

Lemma add_to_team_unconfirmed uid instance_id sess :
  all_confirmed (add_to_team uid instance_id sess) = false.
Proof.
  apply bool_decide_eq_false. intros Hall.
  apply (map_Forall_lookup_1 _ _ (s_opponent sess) false) in Hall; [done|].
  cbn. apply lookup_insert_eq.
Qed.

Lemma load_instances_all w ids l pk :
  load_instances w ids = inl l -> pk ∈ ids -> is_Some (w_instance w pk).
Proof.
  revert l. induction ids as [|i ids IH]; intros l H Hin; cbn in H.
  - by apply elem_of_nil in Hin.
  - destruct (w_instance w i) eqn:Hi; [|done].
    destruct (load_instances w ids) as [l'|]; [|done].
    apply elem_of_cons in Hin as [->|Hin]; [by rewrite Hi | by eapply IH].
Qed.

Lemma loaded_nonempty w ids l :
  load_instances w ids = inl l -> ids <> [] -> l <> [].
Proof.
  intros Hl%load_instances_length Hne ->. by destruct ids.
Qed.

(** X12: [battle_add] answers "Added instance" only to a participant of
    the session who is a registered player and owns the existing instance,
    while the instance is in neither team and the caller's team is below
    the limit; the id is then appended to the caller's own team, the other
    team is untouched and the session is no longer confirmed by all.  With
    any other answer the store is unchanged. *)
Theorem battle_add_effect w session_id uid instance_id ss ss' r :
  battle_add w session_id uid instance_id ss = (ss', r) ->
  (r <> RAdded instance_id session_id -> ss' = ss)
  /\ (r = RAdded instance_id session_id ->
      exists sess sess',
        ss !! session_id = Some sess
        /\ ss' = <[session_id := sess']> ss
        /\ (uid = s_host sess \/ uid = s_opponent sess)
        /\ is_Some (w_instance w instance_id)
        /\ w_player w uid = true
        /\ w_owner w instance_id = uid
        /\ Z.of_nat (length (team_of uid sess)) < s_limit sess
        /\ (instance_id ∉ s_team_a sess ++ s_team_b sess)
        /\ team_of uid sess' = team_of uid sess ++ [instance_id]
        /\ (uid = s_host sess -> s_team_b sess' = s_team_b sess)
        /\ (uid <> s_host sess -> s_team_a sess' = s_team_a sess)
        /\ all_confirmed sess' = false).
Proof.
  unfold battle_add. intros H.
  destruct (ss !! session_id) as [sess|] eqn:Hs; [|by injection H as <- <-].
  destruct (decide (uid <> s_host sess /\ uid <> s_opponent sess)) as [|Hpart];
    [by injection H as <- <-|].
  destruct (w_instance w instance_id) as [inst|] eqn:Hi;
    [|by injection H as <- <-].
  destruct (w_player w uid) eqn:Hp; [|by injection H as <- <-].
  destruct (bool_decide (w_owner w instance_id = uid)) eqn:Ho;
    [|by injection H as <- <-].
  apply bool_decide_eq_true in Ho. cbn [negb orb] in H.
  destruct (decide (s_limit sess <= Z.of_nat (length (team_of uid sess))))
    as [|Hfull]; [by injection H as <- <-|].
  destruct (decide (instance_id ∈ s_team_a sess \/ instance_id ∈ s_team_b sess))
    as [|Hdup]; [by injection H as <- <-|].
  injection H as <- <-. split; [done|]. intros _.
  exists sess, (add_to_team uid instance_id sess). split_and!; try done.
  - destruct (decide (uid = s_host sess)); [tauto|].
    destruct (decide (uid = s_opponent sess)); tauto.
  - lia.
  - intros [?|?]%elem_of_app; apply Hdup; [by left | by right].
  - unfold team_of, add_to_team; cbn. by destruct (decide (uid = s_host sess)).
  - intros Hu. unfold add_to_team; cbn. by destruct (decide (uid = s_host sess)).
  - intros Hu. unfold add_to_team; cbn. by destruct (decide (uid = s_host sess)).
  - apply add_to_team_unconfirmed.
Qed.

Lemma battle_add_effect_witness :
  (RAdded 3 "s1" <> RAdded 3 "s1" ->
   (<["s1"%string := add_to_team 1 3 duel]> duel_store) = duel_store)
  /\ (RAdded 3 "s1" = RAdded 3 "s1" ->
      exists sess sess',
        duel_store !! "s1"%string = Some sess
        /\ (<["s1"%string := add_to_team 1 3 duel]> duel_store)
           = (<["s1"%string := sess']> duel_store)
        /\ (1 = s_host sess \/ 1 = s_opponent sess)
        /\ is_Some (w_instance small_world 3)
        /\ w_player small_world 1 = true
        /\ w_owner small_world 3 = 1
        /\ Z.of_nat (length (team_of 1 sess)) < s_limit sess
        /\ (3 ∉ s_team_a sess ++ s_team_b sess)
        /\ team_of 1 sess' = team_of 1 sess ++ [3]
        /\ (1 = s_host sess -> s_team_b sess' = s_team_b sess)
        /\ (1 <> s_host sess -> s_team_a sess' = s_team_a sess)
        /\ all_confirmed sess' = false).
Proof.
  apply (battle_add_effect small_world "s1" 1 3 duel_store).
  vm_compute. reflexivity.
Defined.



(** X14: a session that a user opened against themself is never fought:
    every confirmation is answered with "not part of this session" or
    "must add at least one countryball", and the store is left as it was. *)
Theorem self_challenge_never_fought w session_id uid ss sess :
  session_ok sess -> ss !! session_id = Some sess ->
  s_host sess = s_opponent sess ->
  exists r, battle_confirm w session_id uid ss = Some (Answered ss r)
            /\ (r = RNotPart \/ r = RMustAdd).
Proof.
  intros (_ & _ & _ & _ & _ & _ & _ & Hself) Hs Heq.
  unfold battle_confirm. rewrite Hs.
  destruct (decide (uid <> s_host sess /\ uid <> s_opponent sess))
    as [|Hpart]; [eauto|].
  destruct (decide (uid = s_host sess /\ s_team_a sess = [])); [eauto|].
  destruct (decide (uid = s_opponent sess /\ s_team_b sess = [])) as [|Hb];
    [eauto|].
  exfalso. apply Hb. split; [|by apply Hself].
  destruct (decide (uid = s_opponent sess)); [done|].
  exfalso. apply Hpart. split; congruence.
Qed.

Lemma self_challenge_never_fought_witness :
  exists r, battle_confirm small_world "s0" 1 {["s0"%string := solo]}
            = Some (Answered {["s0"%string := solo]} r)
            /\ (r = RNotPart \/ r = RMustAdd).
Proof.
  apply (self_challenge_never_fought small_world "s0" 1
           {["s0"%string := solo]} solo).
  - apply (bool_decide_unpack _). vm_compute. exact I.
  - vm_compute. reflexivity.
  - reflexivity.
Defined.

Lemma halves_of_even (ids : list Z) :
  length ids ∈ [2; 4; 6]%nat ->
  let half := (length ids / 2)%nat in
  (1 <= half <= 3)%nat
  /\ length (take half ids) = half /\ length (drop half ids) = half.
Proof.
  intros Hl. cbv zeta. rewrite length_take, length_drop.
  repeat (apply elem_of_cons in Hl as [->|Hl]);
    [cbn; lia.. | by apply elem_of_nil in Hl].
Qed.

